(** * Pure-pursuit controller (nav2_pure_pursuit_controller): model and properties

    A shallow embedding of [pure_pursuit_controller.cpp].  C++ [double]s are
    IEEE-754 binary64 values, embedded as Rocq's primitive [float]s; time
    stamps are integer nanoseconds; the controller object is a record that is
    threaded through every member function, and a thrown exception is a
    result that still carries the (possibly already mutated) object. *)

From Stdlib Require Import ZArith List String Bool Lia.
From Stdlib Require Import Floats.
Import ListNotations.

Set Warnings "-inexact-float".
Local Open Scope Z_scope.

(** ** Numbers *)

Definition double := float.
Bind Scope float_scope with double.

(** Conversion of a C++ integer to [double], rounding to nearest even;
    faithful for magnitudes below 2^63. *)
Definition double_of_Z (n : Z) : double :=
  if (n <? 0)%Z
  then (- PrimFloat.of_uint63 (Uint63.of_Z (- n)))%float
  else PrimFloat.of_uint63 (Uint63.of_Z n).

(** [std::max(a, b)] and [std::min(a, b)] on doubles, as the standard
    library computes them: [(a < b) ? b : a] and [(b < a) ? b : a]. *)
Definition std_max (a b : double) : double :=
  if (a <? b)%float then b else a.

Definition std_min (a b : double) : double :=
  if (b <? a)%float then b else a.

(** [std::clamp(v, lo, hi)], as the standard library computes it:
    [std::min(std::max(v, lo), hi)].  Its precondition is [!(hi < lo)];
    the statements about clamped values below are made under ordered
    bounds. *)
Definition clamp (v lo hi : double) : double :=
  std_min (std_max v lo) hi.

(** In the specification-level view of a binary64 value: neither a zero nor
    a NaN. *)
Definition is_nonzero_number (x : spec_float) : Prop :=
  match x with
  | S754_finite _ _ _ | S754_infinity _ => True
  | _ => False
  end.

(** A stamp is a count of nanoseconds; the difference of two stamps is an
    [rclcpp::Duration], and [seconds()] converts the count to [double] and
    divides by 1e9. *)
Definition Time := Z.
Definition Duration := Z.
Bind Scope Z_scope with Time Duration.
Definition seconds (d : Duration) : double := (double_of_Z d / 1e9)%float.

(** ** Messages *)

Module Point.
Record t := mk { x : double; y : double; z : double }.
Definition zero : t := mk 0%float 0%float 0%float.
End Point.

Module Quaternion.
Record t := mk { x : double; y : double; z : double; w : double }.
Definition identity : t := mk 0%float 0%float 0%float 1%float.
End Quaternion.

Module Pose.
Record t := mk { position : Point.t; orientation : Quaternion.t }.
Definition default : t := mk Point.zero Quaternion.identity.
End Pose.

Module Header.
Record t := mk { stamp : Time; frame_id : string }.
Definition default : t := mk 0 EmptyString.
End Header.

Module PoseStamped.
Record t := mk { header : Header.t; pose : Pose.t }.
Definition default : t := mk Header.default Pose.default.
End PoseStamped.

Module Path.
Record t := mk { header : Header.t; poses : list PoseStamped.t }.
Definition default : t := mk Header.default [].
End Path.

Module Vector3.
Record t := mk { x : double; y : double; z : double }.
Definition zero : t := mk 0%float 0%float 0%float.
End Vector3.

Module Twist.
Record t := mk { linear : Vector3.t; angular : Vector3.t }.
Definition default : t := mk Vector3.zero Vector3.zero.
End Twist.

Module TwistStamped.
Record t := mk { header : Header.t; twist : Twist.t }.
Definition default : t := mk Header.default Twist.default.
End TwistStamped.

(** ** The controller object *)

(** The data members the translation unit reads and writes.  [global_pub_]
    is the publisher; it is modelled by the list of paths published so far,
    newest first. *)
Record PurePursuitController := mkController {
  global_plan_ : Path.t;
  last_cmd_ : TwistStamped.t;
  global_pub_ : list Path.t;
  desired_linear_vel_ : double;
  max_accel_ : double;
  max_decel_ : double;
  lookahead_dist_ : double;
  min_lookahead_dist_ : double;
  max_lookahead_dist_ : double;
  lookahead_gain_ : double;
  max_angular_vel_ : double;
  use_velocity_scaled_lookahead_dist_ : bool
}.

Definition set_global_plan (p : Path.t) (c : PurePursuitController) :=
  mkController p (last_cmd_ c) (global_pub_ c)
    (desired_linear_vel_ c) (max_accel_ c) (max_decel_ c) (lookahead_dist_ c)
    (min_lookahead_dist_ c) (max_lookahead_dist_ c) (lookahead_gain_ c)
    (max_angular_vel_ c) (use_velocity_scaled_lookahead_dist_ c).

Definition set_last_cmd (cmd : TwistStamped.t) (c : PurePursuitController) :=
  mkController (global_plan_ c) cmd (global_pub_ c)
    (desired_linear_vel_ c) (max_accel_ c) (max_decel_ c) (lookahead_dist_ c)
    (min_lookahead_dist_ c) (max_lookahead_dist_ c) (lookahead_gain_ c)
    (max_angular_vel_ c) (use_velocity_scaled_lookahead_dist_ c).

(** [global_pub_->publish(p)]. *)
Definition publish (p : Path.t) (c : PurePursuitController) :=
  mkController (global_plan_ c) (last_cmd_ c) (p :: global_pub_ c)
    (desired_linear_vel_ c) (max_accel_ c) (max_decel_ c) (lookahead_dist_ c)
    (min_lookahead_dist_ c) (max_lookahead_dist_ c) (lookahead_gain_ c)
    (max_angular_vel_ c) (use_velocity_scaled_lookahead_dist_ c).

(** ** What the controller calls but does not define

    The transform buffer, the costmap, the clock and two library functions
    are outside this translation unit; one record holds what they answer
    during a call.  [tf_transform p frame = None] stands for
    [tf_->transform] throwing [tf2::TransformException] (the output
    argument is then left untouched).  [flowed_off_end] is the value a
    caller reads from a [bool] function whose body ends without a [return]
    statement: the language does not fix it. *)
Record Collaborators := mkCollaborators {
  hypot : double -> double -> double;
  euclidean_distance : PoseStamped.t -> PoseStamped.t -> double;
  tf_transform : PoseStamped.t -> string -> option PoseStamped.t;
  getSizeInCellsX : Z;
  getSizeInCellsY : Z;
  getResolution : double;
  getBaseFrameID : string;
  now : Time;
  flowed_off_end : bool
}.

(** ** Exceptions and the call monad *)

Inductive exn :=
| PlannerException (what : string)
| runtime_error (what : string).

Inductive result (A : Type) :=
| Return (a : A)
| Throw (e : exn).
Arguments Return {A} a.
Arguments Throw {A} e.

(** A member function takes the object and gives back a result together
    with the object as it stands when the call ends, by [return] or by
    [throw]. *)
Definition M (A : Type) := PurePursuitController -> result A * PurePursuitController.

Definition ret {A} (a : A) : M A := fun c => (Return a, c).
Definition throw {A} (e : exn) : M A := fun c => (Throw e, c).
Definition bind {A B} (m : M A) (k : A -> M B) : M B :=
  fun c => match m c with
           | (Return a, c') => k a c'
           | (Throw e, c') => (Throw e, c')
           end.
Definition get : M PurePursuitController := fun c => (Return c, c).
Definition modify (f : PurePursuitController -> PurePursuitController) : M unit :=
  fun c => (Return tt, f c).

Notation "x <- m ;; k" := (bind m (fun x => k))
  (at level 61, m at next level, right associativity).
Notation "m ;;; k" := (bind m (fun _ => k))
  (at level 61, right associativity).

(** ** Iterator algorithms, on lists with positions as indices *)

(** The loop of [min_by] after the first element: [idx] is the position of
    the head of [l]. *)
Fixpoint min_by_loop {A} (getCompareVal : A -> double) (l : list A)
         (idx : nat) (lowest : double) (lowest_it : nat) : nat :=
  match l with
  | [] => lowest_it
  | a :: l' =>
      let comp := getCompareVal a in
      if (comp <? lowest)%float
      then min_by_loop getCompareVal l' (S idx) comp idx
      else min_by_loop getCompareVal l' (S idx) lowest lowest_it
  end.

(** [min_by(begin, end, getCompareVal)]: position of the element with the
    minimum calculated value; [end] (the length) on an empty range. *)
Definition min_by {A} (getCompareVal : A -> double) (l : list A) : nat :=
  match l with
  | [] => 0%nat
  | a :: l' => min_by_loop getCompareVal l' 1%nat (getCompareVal a) 0%nat
  end.

(** [std::find_if]: position of the first element satisfying [p]; the
    length when there is none. *)
Fixpoint find_if {A} (p : A -> bool) (l : list A) : nat :=
  match l with
  | [] => 0%nat
  | a :: l' => if p a then 0%nat else S (find_if p l')
  end.

(** The elements at positions [first, last). *)
Definition range {A} (first last : nat) (l : list A) : list A :=
  firstn (last - first) (skipn first l).

Definition is_empty {A} (l : list A) : bool :=
  match l with [] => true | _ => false end.

(** ** Member functions *)

Section Controller.

Variable E : Collaborators.

(** [transformPose(frame, in_pose, out_pose)]: the flag returned and the
    value of [out_pose] afterwards. *)
Definition transformPose (frame : string) (in_pose out_pose : PoseStamped.t)
  : bool * PoseStamped.t :=
  if String.eqb (Header.frame_id (PoseStamped.header in_pose)) frame
  then (true, in_pose)
  else match tf_transform E in_pose frame with
       | Some p => (true, p)
       | None => (false, out_pose)
       end.

(** [getLookAheadDistance()], with the twist it reads as [speed]. *)
Definition getLookAheadDistance (c : PurePursuitController) (speed : Twist.t) : double :=
  if use_velocity_scaled_lookahead_dist_ c
  then clamp (Vector3.x (Twist.linear speed) * lookahead_gain_ c)%float
             (min_lookahead_dist_ c) (max_lookahead_dist_ c)
  else lookahead_dist_ c.

(** [isCollisionImminent]: the body is a comment; control flows off the
    end of the function. *)
Definition isCollisionImminent (robot_pose carrot_pose : PoseStamped.t) : bool :=
  flowed_off_end E.

(** [applyKinematicConstraints]: the two reference arguments are returned
    as a pair.  The second declaration of [dt] inside the body has an
    elided initialiser; the argument is what is read.  [max_accel] and
    [max_decel] without the trailing underscore are the members. *)
Definition applyKinematicConstraints (c : PurePursuitController)
           (linear_vel angular_vel dist_error lookahead_dist dt : double)
  : double * double :=
  let last_linear := Vector3.x (Twist.linear (TwistStamped.twist (last_cmd_ c))) in
  let last_angular := Vector3.z (Twist.angular (TwistStamped.twist (last_cmd_ c))) in
  let linear_vel :=
    if (2.0 * getResolution E <? dist_error)%float
    then (linear_vel * (dist_error / lookahead_dist))%float
    else linear_vel in
  let measured_lin_accel := ((linear_vel - last_linear) / dt)%float in
  let linear_vel :=
    if (max_accel_ c <? measured_lin_accel)%float
    then (last_linear + max_accel_ c * dt)%float
    else if (measured_lin_accel <? - max_decel_ c)%float
         then (last_linear - max_decel_ c * dt)%float
         else linear_vel in
  let measured_ang_accel := ((angular_vel - last_angular) / dt)%float in
  let angular_vel :=
    if (max_accel_ c <? measured_ang_accel)%float
    then (last_angular + max_accel_ c * dt)%float
    else if (measured_ang_accel <? - max_decel_ c)%float
         then (last_angular - max_decel_ c * dt)%float
         else angular_vel in
  (linear_vel, angular_vel).

(** [setPlan]. *)
Definition setPlan (path : Path.t) : M unit :=
  modify (publish path) ;;;
  modify (set_global_plan path).

(** The lambda [transformGlobalPoseToLocal].  It captures
    [transformed_pose] by reference: the value left by the previous call
    comes in, and the value returned is also the one left behind. *)
Definition transformGlobalPoseToLocal (plan_frame : string) (robot_stamp : Time)
           (transformed_pose : PoseStamped.t) (global_plan_pose : PoseStamped.t)
  : PoseStamped.t :=
  let stamped_pose :=
    PoseStamped.mk (Header.mk robot_stamp plan_frame)
                   (PoseStamped.pose global_plan_pose) in
  snd (transformPose (getBaseFrameID E) stamped_pose transformed_pose).

(** [std::transform] of a range through that lambda into a back inserter. *)
Fixpoint transform_range (plan_frame : string) (robot_stamp : Time)
         (l : list PoseStamped.t) (transformed_pose : PoseStamped.t)
  : list PoseStamped.t :=
  match l with
  | [] => []
  | g :: l' =>
      let out := transformGlobalPoseToLocal plan_frame robot_stamp transformed_pose g in
      out :: transform_range plan_frame robot_stamp l' out
  end.

(** The locals of [transformGlobalPlan] that fix the window: half the
    larger side of the costmap, the position of the plan pose closest to
    the robot, and the position of the first pose from there on that is
    farther than that from the robot. *)
Definition max_transform_dist : double :=
  let max_costmap_dim := double_of_Z (Z.max (getSizeInCellsX E) (getSizeInCellsY E)) in
  (max_costmap_dim * getResolution E / 2.0)%float.

Definition transformation_begin (robot_pose : PoseStamped.t) (plan : list PoseStamped.t)
  : nat :=
  min_by (fun ps => euclidean_distance E robot_pose ps) plan.

Definition transformation_end (robot_pose : PoseStamped.t) (plan : list PoseStamped.t)
  : nat :=
  (transformation_begin robot_pose plan +
   find_if (fun global_plan_pose =>
              (max_transform_dist <? euclidean_distance E robot_pose global_plan_pose)%float)
           (skipn (transformation_begin robot_pose plan) plan))%nat.

(** [transformGlobalPlan]. *)
Definition transformGlobalPlan (pose : PoseStamped.t) : M Path.t :=
  c <- get ;;
  let plan := Path.poses (global_plan_ c) in
  let plan_frame := Header.frame_id (Path.header (global_plan_ c)) in
  if is_empty plan
  then throw (PlannerException "Received plan with zero length")
  else
    let '(ok, robot_pose) := transformPose plan_frame pose PoseStamped.default in
    if negb ok
    then throw (PlannerException "Unable to transform robot pose into global plan's frame")
    else
      let robot_stamp := Header.stamp (PoseStamped.header robot_pose) in
      let transformed_plan :=
        Path.mk (Header.mk robot_stamp (getBaseFrameID E))
                (transform_range plan_frame robot_stamp
                   (range (transformation_begin robot_pose plan)
                          (transformation_end robot_pose plan) plan)
                   PoseStamped.default) in
      modify (set_global_plan
                (Path.mk (Path.header (global_plan_ c))
                         (skipn (transformation_begin robot_pose plan) plan))) ;;;
      modify (publish transformed_plan) ;;;
      if is_empty (Path.poses transformed_plan)
      then throw (PlannerException "Resulting plan has 0 poses in it.")
      else ret transformed_plan.

(** [hypot(ps.pose.position.x, ps.pose.position.y)]: the planar distance
    of a pose from the origin of its frame. *)
Definition planar_norm (ps : PoseStamped.t) : double :=
  hypot E (Point.x (Pose.position (PoseStamped.pose ps)))
          (Point.y (Pose.position (PoseStamped.pose ps))).

(** The lambda handed to [std::find_if] in [computeVelocityCommands]: is
    the pose at least [lookahead_dist] away from the origin? *)
Definition reaches_lookahead (lookahead_dist : double) (ps : PoseStamped.t) : bool :=
  (lookahead_dist <=? planar_norm ps)%float.

(** The carrot's position in the transformed plan: the first pose that
    reaches the lookahead distance, or else [std::prev(end)].  (On an empty
    plan [std::prev(end)] has no meaning; [computeVelocityCommands] gets
    there only with a non-empty plan, since [transformGlobalPlan] throws
    otherwise.) *)
Definition goal_pose_it (lookahead_dist : double) (poses : list PoseStamped.t) : nat :=
  let it := find_if (reaches_lookahead lookahead_dist) poses in
  if Nat.eqb it (List.length poses) then Nat.pred (List.length poses) else it.

(** The distance to the carrot as [computeVelocityCommands] measures it. *)
Definition carrot_dist (pose : PoseStamped.t) (carrot_pose : Pose.t) : double :=
  hypot E
    (Point.x (Pose.position (PoseStamped.pose pose)) - Point.x (Pose.position carrot_pose))%float
    (Point.y (Pose.position (PoseStamped.pose pose)) - Point.y (Pose.position carrot_pose))%float.

(** The curvature of the circular arc, as [computeVelocityCommands]
    computes it from the carrot and the distance to it. *)
Definition curvature (carrot_pose : Pose.t) (carrot_dist : double) : double :=
  if (0.001 <? carrot_dist)%float
  then (2.0 * Point.y (Pose.position carrot_pose) / (carrot_dist * carrot_dist))%float
  else 0.0%float.

(** "Apply curvature to angular velocity": the raw linear and angular
    velocities. *)
Definition raw_velocity (c : PurePursuitController) (curvature : double)
  : double * double :=
  (desired_linear_vel_ c, (desired_linear_vel_ c * curvature)%float).

(** [computeVelocityCommands]. *)
Definition computeVelocityCommands (pose : PoseStamped.t) (speed : Twist.t)
  : M TwistStamped.t :=
  transformed_plan <- transformGlobalPlan pose ;;
  c <- get ;;
  let lookahead_dist := getLookAheadDistance c speed in
  let goal_pose :=
    nth (goal_pose_it lookahead_dist (Path.poses transformed_plan))
        (Path.poses transformed_plan) PoseStamped.default in
  let carrot_pose := PoseStamped.pose goal_pose in
  let carrot_dist := carrot_dist pose carrot_pose in
  let curvature := curvature carrot_pose carrot_dist in
  let '(linear_vel, angular_vel) := raw_velocity c curvature in
  let dt : Duration :=
    Header.stamp (PoseStamped.header pose)
    - Header.stamp (TwistStamped.header (last_cmd_ c)) in
  let '(linear_vel, angular_vel) :=
    applyKinematicConstraints c linear_vel angular_vel
      (abs (lookahead_dist - carrot_dist)) lookahead_dist (seconds dt) in
  let angular_vel := clamp angular_vel (- max_angular_vel_ c) (max_angular_vel_ c) in
  let linear_vel := clamp linear_vel 0.0%float (desired_linear_vel_ c) in
  if isCollisionImminent pose goal_pose
  then throw (runtime_error "PurePursuitController detected collision ahead!")
  else
    let cmd_vel :=
      TwistStamped.mk
        (Header.mk (now E) (Header.frame_id (PoseStamped.header pose)))
        (Twist.mk (Vector3.mk linear_vel 0.0 0.0)%float
                  (Vector3.mk 0.0 0.0 angular_vel)%float) in
    modify (set_last_cmd cmd_vel) ;;;
    ret cmd_vel.

(** Three locals of [computeVelocityCommands], as functions of the
    controller [c] left by [transformGlobalPlan] and of the transformed
    plan: the goal pose, the velocities after [applyKinematicConstraints],
    and the message built from them by the two [std::clamp]s.  Lemma
    [tick_after_window] below shows that the function computes exactly
    these. *)
Definition goal_pose (c : PurePursuitController) (speed : Twist.t)
           (transformed_plan : Path.t) : PoseStamped.t :=
  nth (goal_pose_it (getLookAheadDistance c speed) (Path.poses transformed_plan))
      (Path.poses transformed_plan) PoseStamped.default.

Definition limited_velocity (c : PurePursuitController) (pose : PoseStamped.t)
           (speed : Twist.t) (transformed_plan : Path.t) : double * double :=
  let lookahead_dist := getLookAheadDistance c speed in
  let carrot_pose := PoseStamped.pose (goal_pose c speed transformed_plan) in
  let carrot_dist := carrot_dist pose carrot_pose in
  let raw := raw_velocity c (curvature carrot_pose carrot_dist) in
  let dt : Duration :=
    Header.stamp (PoseStamped.header pose)
    - Header.stamp (TwistStamped.header (last_cmd_ c)) in
  applyKinematicConstraints c (fst raw) (snd raw)
    (abs (lookahead_dist - carrot_dist)) lookahead_dist (seconds dt).

Definition cmd_vel (c : PurePursuitController) (pose : PoseStamped.t)
           (limited : double * double) : TwistStamped.t :=
  TwistStamped.mk
    (Header.mk (now E) (Header.frame_id (PoseStamped.header pose)))
    (Twist.mk
       (Vector3.mk (clamp (fst limited) 0.0 (desired_linear_vel_ c)) 0.0 0.0)%float
       (Vector3.mk 0.0 0.0
          (clamp (snd limited) (- max_angular_vel_ c) (max_angular_vel_ c)))%float).

End Controller.

(** ** Calls from the controller server

    The host calls [setPlan] and [computeVelocityCommands] on one
    controller object, in any order, and the object lives on after a call
    that threw.  A call is one of the two with its arguments (and, for a
    tick, what the collaborators answer during it). *)

Inductive Call :=
| Call_setPlan (path : Path.t)
| Call_computeVelocityCommands
    (E : Collaborators) (pose : PoseStamped.t) (speed : Twist.t).

(** The controller after one call, and after a series of calls. *)
Definition after_call (c : PurePursuitController) (k : Call) : PurePursuitController :=
  match k with
  | Call_setPlan path => snd (setPlan path c)
  | Call_computeVelocityCommands E pose speed =>
      snd (computeVelocityCommands E pose speed c)
  end.

Definition after_calls (ks : list Call) (c : PurePursuitController)
  : PurePursuitController :=
  fold_left after_call ks c.

(** The path handed over by the last [setPlan] of a series of calls;
    [held] when the series has none. *)
Fixpoint plan_set_last (ks : list Call) (held : Path.t) : Path.t :=
  match ks with
  | [] => held
  | Call_setPlan path :: ks' => plan_set_last ks' path
  | Call_computeVelocityCommands _ _ _ :: ks' => plan_set_last ks' held
  end.

(** A command respects the limits of a configuration when each of its two
    velocities lies in its interval or is a NaN. *)
Definition within_limits (c : PurePursuitController) (cmd : TwistStamped.t) : Prop :=
  let linear_vel := Vector3.x (Twist.linear (TwistStamped.twist cmd)) in
  let angular_vel := Vector3.z (Twist.angular (TwistStamped.twist cmd)) in
  (is_nan linear_vel = true
   \/ ((0 <=? linear_vel)%float = true
       /\ (linear_vel <=? desired_linear_vel_ c)%float = true))
  /\ (is_nan angular_vel = true
      \/ ((- max_angular_vel_ c <=? angular_vel)%float = true
          /\ (angular_vel <=? max_angular_vel_ c)%float = true)).

(** ** Concrete collaborators, for running the model *)

Module Demo.

Local Open Scope string_scope.

(** A [hypot] computed as the rounded square root of the rounded sum of
    squares; exact on the Pythagorean inputs used below. *)
Definition hypot_sqrt (x y : double) : double := sqrt (x * x + y * y)%float.

Definition planar_distance (a b : PoseStamped.t) : double :=
  hypot_sqrt
    (Point.x (Pose.position (PoseStamped.pose a))
     - Point.x (Pose.position (PoseStamped.pose b)))%float
    (Point.y (Pose.position (PoseStamped.pose a))
     - Point.y (Pose.position (PoseStamped.pose b)))%float.

Definition at_xy (frame : string) (stamp : Time) (x y : double) : PoseStamped.t :=
  PoseStamped.mk (Header.mk stamp frame)
                 (Pose.mk (Point.mk x y 0.0) Quaternion.identity).

(** A transform tree in which [base_link] sits at [(rx, ry)] of every
    other frame, axes aligned. *)
Definition tf_shift (rx ry : double) (p : PoseStamped.t) (frame : string)
  : option PoseStamped.t :=
  let q := Pose.position (PoseStamped.pose p) in
  let o := Pose.orientation (PoseStamped.pose p) in
  let st := Header.stamp (PoseStamped.header p) in
  if String.eqb frame "base_link"
  then Some (PoseStamped.mk (Header.mk st frame)
               (Pose.mk (Point.mk (Point.x q - rx) (Point.y q - ry) (Point.z q))%float o))
  else Some (PoseStamped.mk (Header.mk st frame)
               (Pose.mk (Point.mk (Point.x q + rx) (Point.y q + ry) (Point.z q))%float o)).


(** A transform tree that cannot place a pose whose x is 1, and passes
    every other pose as [tf_shift 0 0] does. *)
Definition tf_patchy (p : PoseStamped.t) (frame : string) : option PoseStamped.t :=
  if (Point.x (Pose.position (PoseStamped.pose p)) =? 1.0)%float
  then None
  else tf_shift 0.0 0.0 p frame.

(** A transform tree that knows no frame. *)
Definition tf_none (p : PoseStamped.t) (frame : string) : option PoseStamped.t := None.

(** A 100 x 100 costmap of 5 cm cells around a robot at [(rx, ry)]; the
    clock reads 2 s. *)
Definition world (rx ry : double) (collision : bool) : Collaborators :=
  mkCollaborators hypot_sqrt planar_distance (tf_shift rx ry)
                  100 100 0.05 "base_link" 2000000000 collision.

Definition world_with (tf : PoseStamped.t -> string -> option PoseStamped.t)
  : Collaborators :=
  mkCollaborators hypot_sqrt planar_distance tf
                  100 100 0.05 "base_link" 2000000000 false.

(** The controller as [configure] leaves it with the default parameter
    values, holding [plan] in frame [map]. *)
Definition configured (plan : list PoseStamped.t) : PurePursuitController :=
  mkController (Path.mk (Header.mk 0 "map") plan) TwistStamped.default []
               0.5 1.0 1.0 0.4 0.3 0.6 1.5 1.0 false.

(** Three poses along the x axis, one metre apart. *)
Definition straight (frame : string) : list PoseStamped.t :=
  [at_xy frame 0 0.0 0.0; at_xy frame 0 1.0 0.0; at_xy frame 0 2.0 0.0].

Definition local_pose (x y : double) : Pose.t :=
  Pose.mk (Point.mk x y 0.0) Quaternion.identity.

(** A plan whose first pose is 200 m and whose second pose is 100 m from a
    robot at (200, 0). *)
Definition far_plan : list PoseStamped.t :=
  [at_xy "map" 0 0.0 0.0; at_xy "map" 0 100.0 0.0].

(** The controller one tick after a command was emitted at 2 s. *)
Definition ticked (plan : list PoseStamped.t) : PurePursuitController :=
  set_last_cmd (TwistStamped.mk (Header.mk 2000000000 "map") Twist.default)
               (configured plan).

Definition linear_x (cmd : TwistStamped.t) : double :=
  Vector3.x (Twist.linear (TwistStamped.twist cmd)).
Definition angular_z (cmd : TwistStamped.t) : double :=
  Vector3.z (Twist.angular (TwistStamped.twist cmd)).

End Demo.

(** * Properties *)

(** ** Order facts about binary64 values *)

Module Binary64.

Lemma SFcompare_antisym (a b : spec_float) :
  SFcompare b a = option_map CompOpp (SFcompare a b).
Proof.
  destruct a as [sa|sa| |sa ma ea], b as [sb|sb| |sb mb eb]; simpl; try reflexivity;
    try (destruct sa; reflexivity); try (destruct sb; reflexivity);
    try (destruct sa, sb; reflexivity).
  destruct sa, sb; simpl; try reflexivity.
  - rewrite (Z.compare_antisym ea eb).
    destruct (ea ?= eb)%Z; simpl; try reflexivity.
    rewrite (Pos.compare_cont_antisym ma mb Eq). reflexivity.
  - rewrite (Z.compare_antisym ea eb).
    destruct (ea ?= eb)%Z; simpl; try reflexivity.
    rewrite (Pos.compare_cont_antisym ma mb Eq). simpl.
    now destruct (Pos.compare_cont Eq ma mb).
Qed.

Lemma SFcompare_refl (a : spec_float) :
  SFcompare a a = match a with S754_nan => None | _ => Some Eq end.
Proof.
  destruct a as [s|s| |s m e]; simpl; try reflexivity.
  - now destruct s.
  - rewrite Z.compare_refl.
    assert (H : Pos.compare_cont Eq m m = Eq) by apply Pos.compare_cont_refl.
    rewrite H. now destruct s.
Qed.

Lemma is_nan_spec (x : float) :
  is_nan x = match Prim2SF x with S754_nan => true | _ => false end.
Proof.
  unfold is_nan. rewrite eqb_spec. unfold SFeqb. rewrite SFcompare_refl.
  now destruct (Prim2SF x).
Qed.

Lemma SFcompare_None (a b : spec_float) :
  SFcompare a b = None -> a = S754_nan \/ b = S754_nan.
Proof.
  destruct a as [sa|sa| |sa ma ea], b as [sb|sb| |sb mb eb]; simpl;
    intros H; try discriminate; auto.
Qed.

Lemma leb_refl (x : float) : is_nan x = false -> (x <=? x)%float = true.
Proof.
  rewrite is_nan_spec, leb_spec. unfold SFleb. rewrite SFcompare_refl.
  now destruct (Prim2SF x).
Qed.

Lemma leb_not_nan (x y : float) :
  (x <=? y)%float = true -> is_nan x = false /\ is_nan y = false.
Proof.
  rewrite !is_nan_spec, leb_spec. unfold SFleb.
  destruct (Prim2SF x), (Prim2SF y); simpl; intros H; try discriminate; auto.
Qed.

Lemma ltb_not_nan (x y : float) :
  (x <? y)%float = true -> is_nan x = false /\ is_nan y = false.
Proof.
  rewrite !is_nan_spec, ltb_spec. unfold SFltb.
  destruct (Prim2SF x), (Prim2SF y); simpl; intros H; try discriminate; auto.
Qed.

(** Among numbers, [not (x < y)] is [y <= x]. *)
Lemma ltb_false_leb (x y : float) :
  is_nan x = false -> is_nan y = false ->
  (x <? y)%float = false -> (y <=? x)%float = true.
Proof.
  rewrite !is_nan_spec, ltb_spec, leb_spec. unfold SFltb, SFleb.
  rewrite (SFcompare_antisym (Prim2SF x) (Prim2SF y)).
  intros Hx Hy.
  destruct (SFcompare (Prim2SF x) (Prim2SF y)) as [[ | | ]|] eqn:Hc; simpl;
    try reflexivity; try discriminate.
  destruct (SFcompare_None _ _ Hc) as [H|H]; rewrite H in *; discriminate.
Qed.

Lemma ltb_leb_false (x y : float) :
  (x <? y)%float = true -> (y <=? x)%float = false.
Proof.
  rewrite ltb_spec, leb_spec. unfold SFltb, SFleb.
  rewrite (SFcompare_antisym (Prim2SF x) (Prim2SF y)).
  now destruct (SFcompare (Prim2SF x) (Prim2SF y)) as [[ | | ]|].
Qed.

(** [std::clamp] between ordered bounds lands between them, unless it is
    handed a NaN, which it hands back. *)
Lemma clamp_range (v lo hi : float) :
  (lo <=? hi)%float = true ->
  is_nan (clamp v lo hi) = true
  \/ ((lo <=? clamp v lo hi)%float = true /\ (clamp v lo hi <=? hi)%float = true).
Proof.
  intros Hb. destruct (leb_not_nan _ _ Hb) as [Hlo Hhi].
  unfold clamp, std_min, std_max.
  destruct (v <? lo)%float eqn:H1.
  - destruct (hi <? lo)%float eqn:H2.
    + apply ltb_leb_false in H2. congruence.
    + right. split; [now apply leb_refl | exact Hb].
  - destruct (hi <? v)%float eqn:H2.
    + right. split; [exact Hb | now apply leb_refl].
    + destruct (is_nan v) eqn:Hv; [now left | right].
      split; now apply ltb_false_leb.
Qed.

(** A bound that is not negative has its opposite below it. *)
Lemma opp_leb_self (m : float) :
  (0 <=? m)%float = true -> (- m <=? m)%float = true.
Proof.
  rewrite !leb_spec, opp_spec.
  replace (Prim2SF 0) with (S754_zero false) by (vm_compute; reflexivity).
  unfold SFleb.
  destruct (Prim2SF m) as [s|s| |s mm e]; simpl; intros H; try discriminate H;
    try reflexivity; destruct s; try discriminate H; reflexivity.
Qed.

Lemma clamp_nan (v lo hi : float) : is_nan v = true -> clamp v lo hi = v.
Proof.
  intros Hv. unfold clamp, std_min, std_max.
  destruct (v <? lo)%float eqn:H1.
  - apply ltb_not_nan in H1. destruct H1 as [H1 _]. congruence.
  - destruct (hi <? v)%float eqn:H2; [|reflexivity].
    apply ltb_not_nan in H2. destruct H2 as [_ H2]. congruence.
Qed.

(** *** Products and quotients that are zero, or cannot be

    The spec-level arithmetic rounds through [binary_round_aux]; what is
    needed of it is that a product well above the smallest subnormal is
    not flushed to zero. *)

Lemma digits2_size (m : positive) : digits2_pos m = Pos.size m.
Proof. induction m; simpl; congruence. Qed.

Lemma size_lower (m : positive) : 2 ^ (Zpos (Pos.size m) - 1) <= Zpos m.
Proof.
  pose proof (Pos.size_le m) as H.
  assert (H' : 2 ^ Zpos (Pos.size m) <= 2 * Zpos m).
  { change 2 with (Zpos 2) at 1. rewrite <- Pos2Z.inj_pow.
    change (2 * Zpos m) with (Zpos m~0). now apply Pos2Z.pos_le_pos. }
  replace (Zpos (Pos.size m)) with (Z.succ (Zpos (Pos.size m) - 1)) in H' by lia.
  rewrite Z.pow_succ_r in H' by lia. lia.
Qed.

Lemma shr_1_m (mrs : shr_record) :
  0 <= shr_m mrs -> shr_m (shr_1 mrs) = Z.div2 (shr_m mrs).
Proof.
  destruct mrs as [m r s]; simpl. intros Hm.
  destruct m as [|[p|p|]|p]; simpl; try reflexivity. lia.
Qed.

Lemma iter_shr_m (p : positive) : forall mrs,
  0 <= shr_m mrs ->
  shr_m (iter_pos shr_1 p mrs) = Z.shiftr (shr_m mrs) (Zpos p).
Proof.
  induction p as [p IH|p IH|]; intros mrs Hm; simpl iter_pos.
  - assert (H1 : 0 <= shr_m (shr_1 mrs)).
    { rewrite shr_1_m by assumption. rewrite Z.div2_spec. now apply Z.shiftr_nonneg. }
    assert (H2 : 0 <= shr_m (iter_pos shr_1 p (shr_1 mrs))).
    { rewrite IH by assumption. now apply Z.shiftr_nonneg. }
    rewrite IH by assumption. rewrite IH by assumption.
    rewrite shr_1_m by assumption. rewrite Z.div2_spec.
    rewrite !Z.shiftr_shiftr by lia. f_equal. lia.
  - assert (H2 : 0 <= shr_m (iter_pos shr_1 p mrs)).
    { rewrite IH by assumption. now apply Z.shiftr_nonneg. }
    rewrite IH by assumption. rewrite IH by assumption.
    rewrite !Z.shiftr_shiftr by lia. f_equal. lia.
  - rewrite shr_1_m by assumption. now rewrite Z.div2_spec.
Qed.

(** Shifting out fewer bits than the mantissa has leaves a positive mantissa. *)
Lemma shr_positive (m : positive) (r s : bool) (e n : Z) :
  n < Zpos (digits2_pos m) ->
  0 < shr_m (fst (shr (Build_shr_record (Zpos m) r s) e n)).
Proof.
  intros Hn. destruct n as [|p|p]; simpl; try lia.
  rewrite iter_shr_m by (simpl; lia). simpl shr_m.
  rewrite Z.shiftr_div_pow2 by lia.
  apply Z.div_str_pos. split; [apply Z.pow_pos_nonneg; lia|].
  rewrite digits2_size in Hn.
  etransitivity; [|apply size_lower].
  apply Z.pow_le_mono_r; lia.
Qed.

Lemma shr_exponent (mrs : shr_record) (e n : Z) :
  snd (shr mrs e n) = e + Z.max n 0.
Proof. destruct n; simpl; lia. Qed.

Lemma fexp_lower (k : Z) : -1074 <= fexp prec emax k.
Proof. unfold fexp, emin, prec, emax. lia. Qed.

Lemma round_nearest_even_positive (m : Z) (l : location) :
  0 < m -> 0 < round_nearest_even m l.
Proof.
  intros Hm. destruct l as [|[ | | ]]; simpl; try lia.
  destruct (Z.even m); lia.
Qed.

(** Rounding a value of at least the smallest subnormal does not give zero. *)
Lemma binary_round_aux_nonzero (s : bool) (m : positive) (e : Z) :
  -1074 < Zpos (digits2_pos m) + e ->
  is_nonzero_number (binary_round_aux prec emax s (Zpos m) e loc_Exact).
Proof.
  intros He. unfold binary_round_aux.
  destruct (shr_fexp prec emax (Zpos m) e loc_Exact) as [mrs1 e1] eqn:H1.
  assert (Hm1 : 0 < shr_m mrs1 /\ -1074 <= e1).
  { unfold shr_fexp in H1. simpl shr_record_of_loc in H1. simpl Zdigits2 in H1.
    split.
    - replace mrs1 with (fst (shr (Build_shr_record (Zpos m) false false) e
          (fexp prec emax (Zpos (digits2_pos m) + e) - e))) by now rewrite H1.
      apply shr_positive. unfold fexp, emin, prec, emax. lia.
    - replace e1 with (snd (shr (Build_shr_record (Zpos m) false false) e
          (fexp prec emax (Zpos (digits2_pos m) + e) - e))) by now rewrite H1.
      rewrite shr_exponent.
      pose proof (fexp_lower (Zpos (digits2_pos m) + e)). lia. }
  destruct Hm1 as [Hm1 He1].
  pose proof (round_nearest_even_positive _ (loc_of_shr_record mrs1) Hm1) as Hr.
  destruct (round_nearest_even (shr_m mrs1) (loc_of_shr_record mrs1)) as [|m2|m2] eqn:Hm2;
    try lia.
  destruct (shr_fexp prec emax (Zpos m2) e1 loc_Exact) as [mrs2 e2] eqn:H2.
  assert (Hm3 : 0 < shr_m mrs2).
  { unfold shr_fexp in H2. simpl shr_record_of_loc in H2. simpl Zdigits2 in H2.
    replace mrs2 with (fst (shr (Build_shr_record (Zpos m2) false false) e1
        (fexp prec emax (Zpos (digits2_pos m2) + e1) - e1))) by now rewrite H2.
    apply shr_positive. unfold fexp, emin, prec, emax. lia. }
  destruct (shr_m mrs2); try lia.
  now destruct (e2 <=? emax - prec).
Qed.

Lemma size_upper (m : positive) : Zpos m < 2 ^ Zpos (Pos.size m).
Proof.
  pose proof (Pos.size_gt m) as H.
  change 2 with (Zpos 2). rewrite <- Pos2Z.inj_pow. now apply Pos2Z.pos_lt_pos.
Qed.

(** The square of a binary64 value above one millimetre is a non-zero
    number (possibly an infinity). *)
Lemma mul_self_nonzero (d : float) :
  (0.001 <? d)%float = true -> is_nonzero_number (Prim2SF (d * d)).
Proof.
  intros H. rewrite ltb_spec in H. rewrite mul_spec.
  pose proof (Prim2SF_valid d) as Hv.
  replace (Prim2SF 0.001) with (S754_finite false 4611686018427388 (-62)) in H
    by (vm_compute; reflexivity).
  destruct (Prim2SF d) as [s|s| |s m e]; try discriminate H.
  - exact I.
  - destruct s; [discriminate H|].
    unfold SF64mul, SFmul. simpl xorb.
    apply binary_round_aux_nonzero.
    assert (He : -62 <= e).
    { unfold SFltb, SFcompare in H.
      destruct (-62 ?= e) eqn:Hc; try discriminate H.
      - apply Z.compare_eq in Hc. lia.
      - rewrite Z.compare_lt_iff in Hc. lia. }
    pose proof (size_upper (m * m)) as Hu. rewrite digits2_size.
    assert (Hd : 53 <= Zpos (Pos.size m)).
    { simpl in Hv. unfold bounded, canonical_mantissa in Hv.
      apply andb_prop in Hv. destruct Hv as [Hc _].
      apply Z.eqb_eq in Hc. rewrite digits2_size in Hc.
      unfold fexp, emin, prec, emax in Hc. lia. }
    pose proof (size_lower m) as Hl.
    assert (H52 : 2 ^ 52 <= Zpos m).
    { etransitivity; [|exact Hl]. apply Z.pow_le_mono_r; lia. }
    assert (H104 : 2 ^ 104 <= Zpos (m * m)).
    { rewrite Pos2Z.inj_mul. change (2 ^ 104) with (2 ^ 52 * 2 ^ 52). nia. }
    assert (Hs : 104 < Zpos (Pos.size (m * m))).
    { apply (Z.pow_lt_mono_r_iff 2); lia. }
    lia.
Qed.

Lemma eqb_zero_inv (y : float) :
  (y =? 0)%float = true -> exists s, Prim2SF y = S754_zero s.
Proof.
  rewrite eqb_spec.
  replace (Prim2SF 0) with (S754_zero false) by (vm_compute; reflexivity).
  unfold SFeqb. destruct (Prim2SF y) as [s|s| |s m e]; simpl; intros H;
    try discriminate H; try (destruct s; discriminate H).
  now exists s.
Qed.

Lemma eqb_zero_intro (y : float) (s : bool) :
  Prim2SF y = S754_zero s -> (y =? 0)%float = true.
Proof.
  intros H. rewrite eqb_spec, H.
  replace (Prim2SF 0) with (S754_zero false) by (vm_compute; reflexivity).
  reflexivity.
Qed.

Lemma is_finite_inv (x : float) :
  is_finite x = true ->
  match Prim2SF x with S754_zero _ | S754_finite _ _ _ => True | _ => False end.
Proof.
  unfold is_finite, is_infinity. rewrite is_nan_spec, eqb_spec, abs_spec.
  replace (Prim2SF infinity) with (S754_infinity false) by (vm_compute; reflexivity).
  destruct (Prim2SF x) as [s|s| |s m e]; simpl; intros H; try exact I; discriminate H.
Qed.

(** A finite factor times a zero is a zero. *)
Lemma mul_zero_r (a k : float) :
  is_finite a = true -> (k =? 0)%float = true -> (a * k =? 0)%float = true.
Proof.
  intros Ha Hk. apply is_finite_inv in Ha. destruct (eqb_zero_inv _ Hk) as [s Hs].
  destruct (Prim2SF a) as [sa|sa| |sa ma ea] eqn:Hpa; try contradiction.
  - apply (eqb_zero_intro _ (xorb sa s)). now rewrite mul_spec, Hpa, Hs.
  - apply (eqb_zero_intro _ (xorb sa s)). now rewrite mul_spec, Hpa, Hs.
Qed.

(** Twice a zero, over a non-zero number, is a zero. *)
Lemma two_zero_div (y q : float) :
  (y =? 0)%float = true -> is_nonzero_number (Prim2SF q) ->
  (2.0 * y / q =? 0)%float = true.
Proof.
  intros Hy Hq. destruct (eqb_zero_inv _ Hy) as [s Hs].
  assert (H2 : Prim2SF (2.0 * y) = S754_zero s).
  { rewrite mul_spec, Hs.
    replace (Prim2SF 2.0) with (S754_finite false 4503599627370496 (-51))
      by (vm_compute; reflexivity).
    reflexivity. }
  destruct (Prim2SF q) as [sq|sq| |sq mq eq] eqn:Hpq; try contradiction.
  - apply (eqb_zero_intro _ (xorb s sq)). now rewrite div_spec, H2, Hpq.
  - apply (eqb_zero_intro _ (xorb s sq)). now rewrite div_spec, H2, Hpq.
Qed.

(** *** The order among numbers is transitive *)

Ltac lex_order ea eb ec ma mb mc :=
  change (Pos.compare_cont Eq ma mb) with (Pos.compare ma mb) in *;
  change (Pos.compare_cont Eq mb mc) with (Pos.compare mb mc) in *;
  change (Pos.compare_cont Eq ma mc) with (Pos.compare ma mc) in *;
  destruct (Z.compare_spec ea eb), (Z.compare_spec eb ec), (Z.compare_spec ea ec);
  destruct (Pos.compare_spec ma mb), (Pos.compare_spec mb mc), (Pos.compare_spec ma mc);
  simpl in *; try congruence; try lia.

Lemma SFcompare_lt_le_trans (a b c : spec_float) :
  SFcompare a b = Some Lt ->
  (SFcompare b c = Some Lt \/ SFcompare b c = Some Eq) ->
  SFcompare a c = Some Lt.
Proof.
  destruct a as [sa|sa| |sa ma ea], b as [sb|sb| |sb mb eb], c as [sc|sc| |sc mc ec];
    simpl; intros H1 [H2|H2]; try discriminate;
    repeat match goal with s : bool |- _ => destruct s end;
    simpl in *; try discriminate; try reflexivity;
    injection H1 as H1; injection H2 as H2; f_equal;
    lex_order ea eb ec ma mb mc.
Qed.

Lemma ltb_leb_trans (x y z : float) :
  (x <? y)%float = true -> (y <=? z)%float = true -> (x <? z)%float = true.
Proof.
  rewrite !ltb_spec, leb_spec. unfold SFltb, SFleb.
  intros H1 H2.
  rewrite (SFcompare_lt_le_trans (Prim2SF x) (Prim2SF y) (Prim2SF z)); [reflexivity| |].
  - now destruct (SFcompare (Prim2SF x) (Prim2SF y)) as [[ | | ]|].
  - destruct (SFcompare (Prim2SF y) (Prim2SF z)) as [[ | | ]|]; auto; discriminate.
Qed.

Lemma ltb_leb (x y : float) : (x <? y)%float = true -> (x <=? y)%float = true.
Proof.
  rewrite ltb_spec, leb_spec. unfold SFltb, SFleb.
  now destruct (SFcompare (Prim2SF x) (Prim2SF y)) as [[ | | ]|].
Qed.

(** A number clamped between ordered bounds is a number. *)
Lemma clamp_number (v lo hi : float) :
  (lo <=? hi)%float = true -> is_nan v = false -> is_nan (clamp v lo hi) = false.
Proof.
  intros Hb Hv. destruct (leb_not_nan _ _ Hb) as [Hlo Hhi].
  unfold clamp, std_min, std_max. destruct (v <? lo)%float.
  - now destruct (hi <? lo)%float.
  - now destruct (hi <? v)%float.
Qed.

(** *** Differences of finite values *)

Lemma digits2_iter_xO (m d : positive) :
  Zpos (digits2_pos (Pos.iter xO m d)) = Zpos (digits2_pos m) + Zpos d.
Proof.
  induction d as [|d IH] using Pos.peano_ind.
  - simpl. lia.
  - rewrite Pos.iter_succ. cbn [digits2_pos]. lia.
Qed.

(** Aligning a mantissa to a lower exponent keeps [digits + exponent]. *)
Lemma shl_align_digits (mx : positive) (ex ez : Z) :
  ez <= ex ->
  Zpos (digits2_pos (fst (shl_align mx ex ez))) + ez = Zpos (digits2_pos mx) + ex
  /\ (ex = ez -> fst (shl_align mx ex ez) = mx).
Proof.
  intros Hle. unfold shl_align.
  destruct (ez - ex) as [|p|p] eqn:Hd; cbn [fst].
  - split; [lia | reflexivity].
  - lia.
  - rewrite digits2_iter_xO. split; [lia|]. intros ->. lia.
Qed.

Lemma canonical_exponent (s : bool) (m : positive) (e : Z) :
  valid_binary (S754_finite s m e) = true ->
  e = fexp prec emax (Zpos (digits2_pos m) + e).
Proof.
  simpl. unfold bounded, canonical_mantissa.
  intros H. apply andb_prop in H. destruct H as [H _].
  apply Z.eqb_eq in H. now symmetry.
Qed.

Lemma binary_round_nonzero (s : bool) (m : positive) (e : Z) :
  -1074 <= e -> is_nonzero_number (binary_round prec emax s m e).
Proof.
  intros He. unfold binary_round.
  pose proof (fexp_lower (Zpos (digits2_pos m) + e)) as Hf.
  set (fe := fexp prec emax (Zpos (digits2_pos m) + e)) in *.
  destruct (shl_align m e fe) as [mz ez] eqn:Hs.
  apply binary_round_aux_nonzero.
  unfold shl_align in Hs.
  destruct (fe - e); injection Hs as Hmz Hez; subst mz ez; lia.
Qed.

(** The difference of two finite binary64 values is zero only when they
    are equal; otherwise it is a non-zero number. *)
Lemma SFsub_finite (sx sy : bool) (mx my : positive) (ex ey : Z) :
  valid_binary (S754_finite sx mx ex) = true ->
  valid_binary (S754_finite sy my ey) = true ->
  (SF64sub (S754_finite sx mx ex) (S754_finite sy my ey) = S754_zero false
   /\ SFcompare (S754_finite sx mx ex) (S754_finite sy my ey) = Some Eq)
  \/ is_nonzero_number (SF64sub (S754_finite sx mx ex) (S754_finite sy my ey)).
Proof.
  intros Hx Hy.
  pose proof (canonical_exponent _ _ _ Hx) as Hcx.
  pose proof (canonical_exponent _ _ _ Hy) as Hcy.
  pose proof (fexp_lower (Zpos (digits2_pos mx) + ex)) as Hlx.
  pose proof (fexp_lower (Zpos (digits2_pos my) + ey)) as Hly.
  unfold SF64sub, SFsub.
  set (ez := Z.min ex ey).
  destruct (shl_align_digits mx ex ez) as [Hdx Hex]; [unfold ez; lia|].
  destruct (shl_align_digits my ey ez) as [Hdy Hey]; [unfold ez; lia|].
  set (ax := fst (shl_align mx ex ez)) in *.
  set (ay := fst (shl_align my ey ez)) in *.
  destruct (cond_Zopp sx (Zpos ax) - cond_Zopp sy (Zpos ay)) as [|p|p] eqn:Hdiff.
  - left. split; [reflexivity|].
    assert (Hs : sx = sy /\ ax = ay).
    { unfold cond_Zopp in Hdiff.
      destruct sx, sy; try lia; split; try reflexivity;
        assert (Hp : Zpos ax = Zpos ay) by lia; now injection Hp. }
    destruct Hs as [Hs Ha]. rewrite Ha in Hdx.
    assert (He : ex = ey) by (rewrite Hcx, Hcy; f_equal; lia).
    assert (Hm : mx = my).
    { rewrite <- Hex, <- Hey; [exact Ha | unfold ez; lia | unfold ez; lia]. }
    subst. apply SFcompare_refl.
  - right. simpl. apply binary_round_nonzero. unfold ez. lia.
  - right. simpl. apply binary_round_nonzero. unfold ez. lia.
Qed.

(** The difference of a number and a finite value is a zero only when the
    two are equal; otherwise it is a non-zero number. *)
Lemma sub_finite (v last : float) :
  is_nan v = false -> is_finite last = true ->
  ((exists s, Prim2SF (v - last) = S754_zero s) /\ (v =? last)%float = true)
  \/ is_nonzero_number (Prim2SF (v - last)).
Proof.
  intros Hv Hl. rewrite is_nan_spec in Hv. apply is_finite_inv in Hl.
  rewrite sub_spec, eqb_spec. unfold SFeqb.
  pose proof (Prim2SF_valid v) as Vv. pose proof (Prim2SF_valid last) as Vl.
  destruct (Prim2SF v) as [sv|sv| |sv mv ev], (Prim2SF last) as [sl|sl| |sl ml el];
    try discriminate; try contradiction.
  - left. split; [|reflexivity]. simpl. destruct sv, sl; eexists; reflexivity.
  - right. exact I.
  - right. exact I.
  - right. exact I.
  - right. exact I.
  - destruct (SFsub_finite sv sl mv ml ev el Vv Vl) as [[Hz Hc]|Hn].
    + left. rewrite Hc. split; [|reflexivity]. eexists. exact Hz.
    + now right.
Qed.

(** One axis of the limiter at a time step of zero: a request that is a
    number comes out equal to the last velocity. *)
Lemma limited_axis_at_zero_dt (v last a d dt : float) :
  (dt =? 0)%float = true ->
  is_finite last = true -> is_finite a = true -> is_finite d = true ->
  is_nan v = false ->
  ((if (a <? (v - last) / dt)%float
    then (last + a * dt)%float
    else if ((v - last) / dt <? - d)%float
         then (last - d * dt)%float
         else v) =? last)%float = true.
Proof.
  intros Hdt Hl Ha Hd Hv.
  destruct (eqb_zero_inv _ Hdt) as [s0 Hs0].
  pose proof (is_finite_inv _ Hl) as Il.
  pose proof (is_finite_inv _ Ha) as Ia.
  pose proof (is_finite_inv _ Hd) as Id.
  assert (Hm : Prim2SF ((v - last) / dt)
               = match Prim2SF (v - last) with
                 | S754_zero _ => S754_nan
                 | S754_infinity s | S754_finite s _ _ => S754_infinity (xorb s s0)
                 | S754_nan => S754_nan
                 end).
  { rewrite div_spec, Hs0. now destruct (Prim2SF (v - last)). }
  rewrite !ltb_spec, Hm, opp_spec. unfold SFltb.
  destruct (sub_finite v last Hv Hl) as [[[s Hz] He]|Hn].
  - rewrite Hz. simpl.
    destruct (Prim2SF a); simpl; exact He.
  - assert (Hinf : exists s, match Prim2SF (v - last) with
                             | S754_zero _ => S754_nan
                             | S754_infinity s | S754_finite s _ _ =>
                                 S754_infinity (xorb s s0)
                             | S754_nan => S754_nan
                             end = S754_infinity s).
    { destruct (Prim2SF (v - last)); try contradiction; eexists; reflexivity. }
    destruct Hinf as [s Hinf]. rewrite Hinf.
    rewrite eqb_spec. unfold SFeqb.
    destruct s.
    + (* minus infinity: the deceleration branch *)
      assert (Ha' : SFcompare (Prim2SF a) (S754_infinity true) = Some Gt)
        by (destruct (Prim2SF a); try contradiction; reflexivity).
      assert (Hd' : SFcompare (S754_infinity true) (SFopp (Prim2SF d)) = Some Lt)
        by (destruct (Prim2SF d); try contradiction; reflexivity).
      rewrite Ha', Hd'. rewrite sub_spec, mul_spec, Hs0.
      destruct (Prim2SF d) as [sd|sd| |sd md ed]; try contradiction;
        destruct (Prim2SF last) as [sl|sl| |sl ml el]; try contradiction;
        simpl; try (destruct sl, (xorb sd s0); reflexivity);
        rewrite Z.compare_refl, Pos.compare_cont_refl; destruct sl; reflexivity.
    + assert (Ha' : SFcompare (Prim2SF a) (S754_infinity false) = Some Lt)
        by (destruct (Prim2SF a); try contradiction; reflexivity).
      rewrite Ha'. rewrite add_spec, mul_spec, Hs0.
      destruct (Prim2SF a) as [sa|sa| |sa ma ea]; try contradiction;
        destruct (Prim2SF last) as [sl|sl| |sl ml el]; try contradiction;
        simpl; try (destruct sl, (xorb sa s0); reflexivity);
        rewrite Z.compare_refl, Pos.compare_cont_refl; destruct sl; reflexivity.
Qed.

(** *** Equal values

    What the limiter computes when the request is the last velocity. *)

(** The difference of two equal values is a zero or a NaN. *)
Lemma sub_equal (v last : float) :
  (v =? last)%float = true ->
  (exists s, Prim2SF (v - last) = S754_zero s) \/ Prim2SF (v - last) = S754_nan.
Proof.
  rewrite eqb_spec, sub_spec. unfold SFeqb.
  destruct (Prim2SF v) as [sv|sv| |sv mv ev], (Prim2SF last) as [sl|sl| |sl ml el];
    try discriminate;
    try (destruct sv, sl; simpl; try discriminate; intros _;
         ((left; eexists; reflexivity) || (right; reflexivity))).
  intros H. left.
  assert (Hs : sv = sl /\ ev = el /\ mv = ml).
  { simpl in H.
    destruct sv, sl; try discriminate;
      destruct (Z.compare_spec ev el) as [He|He|He]; try discriminate;
      change (Pos.compare_cont Eq ?a ?b) with (Pos.compare a b) in H;
      try rewrite <- Pos.compare_antisym in H;
      destruct (Pos.compare_spec mv ml) as [Hm|Hm|Hm]; try discriminate;
      destruct (Pos.compare_spec ml mv) as [Hm'|Hm'|Hm']; try discriminate;
      subst; auto; lia. }
  destruct Hs as (-> & -> & ->).
  unfold SF64sub, SFsub. rewrite Z.sub_diag. exists false. reflexivity.
Qed.

(** One axis of the limiter at steady state: with limits that are not
    negative, a request equal to the last velocity passes unchanged,
    whatever the time step. *)
Lemma limited_axis_steady (v last a d dt : float) :
  (0 <=? a)%float = true -> (0 <=? d)%float = true ->
  (v =? last)%float = true ->
  (if (a <? (v - last) / dt)%float
   then (last + a * dt)%float
   else if ((v - last) / dt <? - d)%float
        then (last - d * dt)%float
        else v) = v.
Proof.
  intros Ha Hd Hv.
  assert (Hq : (exists s, Prim2SF ((v - last) / dt) = S754_zero s)
               \/ Prim2SF ((v - last) / dt) = S754_nan).
  { rewrite div_spec.
    destruct (sub_equal v last Hv) as [[s ->]| ->].
    - destruct (Prim2SF dt); simpl; eauto.
    - right. reflexivity. }
  rewrite leb_spec in Ha, Hd. unfold SFleb in Ha, Hd. change (Prim2SF 0) with (S754_zero false) in *.
  rewrite !ltb_spec, opp_spec. unfold SFltb.
  destruct Hq as [[s ->]| ->].
  - destruct (Prim2SF a) as [sa|[|]| |[|] ma ea]; try discriminate;
      destruct (Prim2SF d) as [sd|[|]| |[|] md ed]; try discriminate; reflexivity.
  - destruct (Prim2SF a) as [sa|[|]| |[|] ma ea]; try discriminate; reflexivity.
Qed.

End Binary64.

(** ** Facts about the iterator algorithms *)

Lemma find_if_le {A} (p : A -> bool) (l : list A) :
  (find_if p l <= List.length l)%nat.
Proof. induction l as [|a l IH]; simpl; [lia|]. destruct (p a); lia. Qed.

(** When [find_if] stops inside the list, it stops at the first element
    that satisfies the predicate. *)
Lemma find_if_found {A} (p : A -> bool) (d : A) (l : list A) :
  (find_if p l < List.length l)%nat ->
  exists before after,
    l = before ++ nth (find_if p l) l d :: after
    /\ List.length before = find_if p l
    /\ Forall (fun a => p a = false) before
    /\ p (nth (find_if p l) l d) = true.
Proof.
  induction l as [|a l IH]; simpl; [lia|].
  destruct (p a) eqn:Hpa; intros Hlt.
  - exists [], l. repeat split; auto.
  - destruct IH as (before & after & Hl & Hlen & Hall & Hp); [lia|].
    exists (a :: before), after. repeat split.
    + simpl. now rewrite <- Hl.
    + simpl. now rewrite Hlen.
    + now constructor.
    + exact Hp.
Qed.

(** When [find_if] runs to the end, no element satisfies the predicate. *)
Lemma find_if_end {A} (p : A -> bool) (l : list A) :
  find_if p l = List.length l -> Forall (fun a => p a = false) l.
Proof.
  induction l as [|a l IH]; simpl; [constructor|].
  destruct (p a) eqn:Hpa; intros H; [discriminate|].
  constructor; [exact Hpa | apply IH; lia].
Qed.

Lemma find_if_all_false {A} (p : A -> bool) (l : list A) :
  Forall (fun a => p a = false) l -> find_if p l = List.length l.
Proof.
  induction 1 as [|a l Ha _ IH]; simpl; [reflexivity|]. now rewrite Ha, IH.
Qed.

Lemma min_by_loop_lt {A} (f : A -> double) (l : list A) :
  forall idx lowest lowest_it,
    (lowest_it < idx)%nat ->
    (min_by_loop f l idx lowest lowest_it < idx + List.length l)%nat.
Proof.
  induction l as [|a l IH]; simpl; intros idx lowest lowest_it Hlt; [lia|].
  destruct (f a <? lowest)%float.
  - specialize (IH (S idx) (f a) idx). lia.
  - specialize (IH (S idx) lowest lowest_it). lia.
Qed.

(** On a non-empty range [min_by] points at an element. *)
Lemma min_by_lt {A} (f : A -> double) (l : list A) :
  l <> [] -> (min_by f l < List.length l)%nat.
Proof.
  destruct l as [|a l]; [congruence|]. intros _. simpl.
  pose proof (min_by_loop_lt f l 1 (f a) 0). lia.
Qed.

Lemma nth_pred_length_last {A} (d : A) (l : list A) :
  nth (Nat.pred (List.length l)) l d = last l d.
Proof.
  induction l as [|a l IH]; [reflexivity|].
  destruct l as [|b l]; [reflexivity|].
  simpl in *. exact IH.
Qed.

(** ** The lookahead selector *)

(** C9.  On a non-empty window the carrot picked by
    [computeVelocityCommands] is the first pose, in window order, whose
    planar distance from the local origin is at least the lookahead
    distance; when no pose reaches it, and in particular when every pose is
    strictly nearer than the lookahead distance, the carrot is the last pose
    of the window. *)
Theorem carrot_is_first_reaching_or_last
        (E : Collaborators) (lookahead : double) (window : list PoseStamped.t) :
  window <> [] ->
  let carrot := nth (goal_pose_it E lookahead window) window PoseStamped.default in
  ((exists before after,
       window = before ++ carrot :: after
       /\ Forall (fun ps => (lookahead <=? planar_norm E ps)%float = false) before
       /\ (lookahead <=? planar_norm E carrot)%float = true)
   \/ (Forall (fun ps => (lookahead <=? planar_norm E ps)%float = false) window
       /\ carrot = last window PoseStamped.default))
  /\ (Forall (fun ps => (planar_norm E ps <? lookahead)%float = true) window ->
      carrot = last window PoseStamped.default).
Proof.
  intros Hne. cbv zeta. unfold goal_pose_it.
  change (fun ps => (lookahead <=? planar_norm E ps)%float = false)
    with (fun ps => reaches_lookahead E lookahead ps = false).
  change (lookahead <=? planar_norm E ?x)%float with (reaches_lookahead E lookahead x).
  split.
  - destruct (Nat.eqb_spec (find_if (reaches_lookahead E lookahead) window)
                           (List.length window)) as [Hend|Hin].
    + right. split; [now apply find_if_end | apply nth_pred_length_last].
    + left. pose proof (find_if_le (reaches_lookahead E lookahead) window) as Hle.
      destruct (find_if_found (reaches_lookahead E lookahead) PoseStamped.default window)
        as (before & after & Hw & _ & Hall & Hp); [lia|].
      exists before, after. auto.
  - intros Hnear.
    assert (Hall : Forall (fun ps => reaches_lookahead E lookahead ps = false) window).
    { eapply Forall_impl; [|exact Hnear]. intros ps Hps. now apply Binary64.ltb_leb_false. }
    rewrite (find_if_all_false _ _ Hall), Nat.eqb_refl.
    apply nth_pred_length_last.
Qed.

Lemma carrot_is_first_reaching_or_last_witness :
  let E := Demo.world 0.0 0.0 false in
  let window := Demo.straight "base_link" in
  let carrot := nth (goal_pose_it E 1.5 window) window PoseStamped.default in
  window <> []
  /\ ((exists before after,
          window = before ++ carrot :: after
          /\ Forall (fun ps => (1.5 <=? planar_norm E ps)%float = false) before
          /\ (1.5 <=? planar_norm E carrot)%float = true)
      \/ (Forall (fun ps => (1.5 <=? planar_norm E ps)%float = false) window
          /\ carrot = last window PoseStamped.default))
  /\ (Forall (fun ps => (planar_norm E ps <? 1.5)%float = true) window ->
      carrot = last window PoseStamped.default).
Proof.
  cbv zeta. split; [discriminate|].
  apply (carrot_is_first_reaching_or_last
           (Demo.world 0.0 0.0 false) 1.5 (Demo.straight "base_link")).
  discriminate.
Defined.

(** With poses at 0, 1 and 2 m and a lookahead of 1.5 m the carrot is the
    pose at 2 m, because it is the first one far enough. *)
Example carrot_of_straight_window :
  nth (goal_pose_it (Demo.world 0.0 0.0 false) 1.5 (Demo.straight "base_link"))
      (Demo.straight "base_link") PoseStamped.default
  = Demo.at_xy "base_link" 0 2.0 0.0.
Proof. vm_compute. reflexivity. Qed.

(** With a lookahead of 3 m no pose is far enough, and the carrot is again
    the pose at 2 m, now because it is the last one. *)
Example carrot_of_short_window :
  find_if (reaches_lookahead (Demo.world 0.0 0.0 false) 3.0) (Demo.straight "base_link")
  = 3%nat
  /\ nth (goal_pose_it (Demo.world 0.0 0.0 false) 3.0 (Demo.straight "base_link"))
         (Demo.straight "base_link") PoseStamped.default
     = Demo.at_xy "base_link" 0 2.0 0.0.
Proof. vm_compute. split; reflexivity. Qed.

(** ** The kinematic limiter: acceleration limiting *)

(** C8.  [applyKinematicConstraints] measures, per axis, the acceleration
    [(v - last) / dt] that the requested velocity [v] would need since the
    last emitted command ([v] is the linear velocity after the end-of-path
    scaling, and the raw angular velocity).  When the measure exceeds
    [max_accel_] the output is [last + max_accel_ * dt]; otherwise, when it
    is below [- max_decel_], the output is [last - max_decel_ * dt];
    otherwise [v] passes.  This holds for every [dt], so for every [dt > 0].
    With [dt = 0.1], [max_accel_ = 1.0], a last linear velocity of [0.0] and
    a raw linear velocity of [0.5] (no end-of-path scaling), the limited
    linear velocity is [0.1]. *)
Theorem acceleration_limiting
        (E : Collaborators) (c : PurePursuitController)
        (raw_linear raw_angular dist_error lookahead dt : double) :
  let last_linear := Vector3.x (Twist.linear (TwistStamped.twist (last_cmd_ c))) in
  let last_angular := Vector3.z (Twist.angular (TwistStamped.twist (last_cmd_ c))) in
  let scaled_linear :=
    if (2.0 * getResolution E <? dist_error)%float
    then (raw_linear * (dist_error / lookahead))%float
    else raw_linear in
  let lin_accel := ((scaled_linear - last_linear) / dt)%float in
  let ang_accel := ((raw_angular - last_angular) / dt)%float in
  let out := applyKinematicConstraints E c raw_linear raw_angular dist_error lookahead dt in
  ((max_accel_ c <? lin_accel)%float = true ->
   fst out = (last_linear + max_accel_ c * dt)%float)
  /\ ((max_accel_ c <? lin_accel)%float = false ->
      (lin_accel <? - max_decel_ c)%float = true ->
      fst out = (last_linear - max_decel_ c * dt)%float)
  /\ ((max_accel_ c <? lin_accel)%float = false ->
      (lin_accel <? - max_decel_ c)%float = false ->
      fst out = scaled_linear)
  /\ ((max_accel_ c <? ang_accel)%float = true ->
      snd out = (last_angular + max_accel_ c * dt)%float)
  /\ ((max_accel_ c <? ang_accel)%float = false ->
      (ang_accel <? - max_decel_ c)%float = true ->
      snd out = (last_angular - max_decel_ c * dt)%float)
  /\ ((max_accel_ c <? ang_accel)%float = false ->
      (ang_accel <? - max_decel_ c)%float = false ->
      snd out = raw_angular)
  /\ (max_accel_ c = 1.0%float -> last_linear = 0.0%float ->
      (2.0 * getResolution E <? dist_error)%float = false ->
      fst (applyKinematicConstraints E c 0.5 raw_angular dist_error lookahead 0.1)
      = 0.1%float).
Proof.
  cbv zeta. unfold applyKinematicConstraints. cbn [fst snd].
  repeat split.
  - intros H. now rewrite H.
  - intros H1 H2. now rewrite H1, H2.
  - intros H1 H2. now rewrite H1, H2.
  - intros H. now rewrite H.
  - intros H1 H2. now rewrite H1, H2.
  - intros H1 H2. now rewrite H1, H2.
  - intros Ha Hl Hs. rewrite Hs, Ha, Hl. vm_compute. reflexivity.
Qed.

(** The three cases of the linear axis, run on the default configuration
    with [dt = 0.1]: speeding up from rest is held to 0.1; braking from 0.5
    to a request of 0.0 is held to 0.4; a request within both bounds
    passes. *)
Example acceleration_limiting_cases :
  let E := Demo.world 0.0 0.0 false in
  let rest := Demo.configured [] in
  let moving :=
    set_last_cmd
      (TwistStamped.mk Header.default
         (Twist.mk (Vector3.mk 0.5 0.0 0.0) Vector3.zero)) rest in
  fst (applyKinematicConstraints E rest 0.5 0.0 0.0 0.4 0.1) = 0.1%float
  /\ fst (applyKinematicConstraints E moving 0.0 0.0 0.0 0.4 0.1) = 0.4%float
  /\ fst (applyKinematicConstraints E moving 0.45 0.0 0.0 0.4 0.1) = 0.45%float.
Proof. vm_compute. repeat split; reflexivity. Qed.

(** ** The velocity synthesizer: curvature and raw command *)

(** A carrot with no lateral offset gives a curvature that is a zero. *)
Lemma curvature_of_zero_offset (carrot_pose : Pose.t) (d : double) :
  (Point.y (Pose.position carrot_pose) =? 0)%float = true ->
  (curvature carrot_pose d =? 0)%float = true.
Proof.
  intros Hy. unfold curvature.
  destruct (0.001 <? d)%float eqn:Hd.
  - apply Binary64.two_zero_div; [exact Hy | now apply Binary64.mul_self_nonzero].
  - vm_compute. reflexivity.
Qed.

(** C7.  The curvature is [2 * y / d²] when the chord [d] exceeds 0.001 and
    0 otherwise; the raw command is [desired_linear_vel_] for the linear
    and [desired_linear_vel_ * curvature] for the angular velocity; so, for
    a finite [desired_linear_vel_], a carrot exactly ahead ([y = 0]) gives a
    raw angular velocity that is zero. *)
Theorem curvature_law
        (c : PurePursuitController) (carrot_pose : Pose.t) (d : double) :
  let y := Point.y (Pose.position carrot_pose) in
  ((0.001 <? d)%float = true -> curvature carrot_pose d = (2.0 * y / (d * d))%float)
  /\ ((0.001 <? d)%float = false -> curvature carrot_pose d = 0.0%float)
  /\ raw_velocity c (curvature carrot_pose d)
     = (desired_linear_vel_ c, (desired_linear_vel_ c * curvature carrot_pose d)%float)
  /\ (is_finite (desired_linear_vel_ c) = true -> (y =? 0)%float = true ->
      (snd (raw_velocity c (curvature carrot_pose d)) =? 0)%float = true).
Proof.
  cbv zeta. unfold raw_velocity. cbn [snd]. repeat split.
  - intros H. unfold curvature. now rewrite H.
  - intros H. unfold curvature. now rewrite H.
  - intros Hf Hy. apply Binary64.mul_zero_r; [exact Hf|].
    now apply curvature_of_zero_offset.
Qed.

(** A carrot 2 m straight ahead, and the same carrot 0.5 mm away: the raw
    angular velocity is zero in both; a carrot at (3, 4), 5 m away, has
    curvature 8/25. *)
Example curvature_law_cases :
  snd (raw_velocity (Demo.configured []) (curvature (Demo.local_pose 2.0 0.0) 2.0))
  = 0.0%float
  /\ curvature (Demo.local_pose 0.0 0.0005) 0.0005 = 0.0%float
  /\ curvature (Demo.local_pose 3.0 4.0) 5.0 = 0.32%float.
Proof. vm_compute. repeat split; reflexivity. Qed.

(** ** [setPlan] *)

(** C5, as the code has it.  [setPlan] never fails: for every incoming
    path, with poses or without, it publishes the path and replaces the
    held path wholesale; nothing else of the controller changes. *)
Theorem setPlan_replaces_held_path (path : Path.t) (c : PurePursuitController) :
  fst (setPlan path c) = Return tt
  /\ global_plan_ (snd (setPlan path c)) = path
  /\ global_pub_ (snd (setPlan path c)) = path :: global_pub_ c
  /\ last_cmd_ (snd (setPlan path c)) = last_cmd_ c.
Proof. repeat split. Qed.

(** C5 as stated fails: handed a path with zero poses while holding three,
    [setPlan] returns normally and the held path is now the empty one. *)
Lemma setPlan_accepts_zero_poses :
  let held := Demo.configured (Demo.straight "map") in
  let incoming := Path.mk (Header.mk 0 "map") [] in
  Path.poses incoming = []
  /\ fst (setPlan incoming held) = Return tt
  /\ global_plan_ (snd (setPlan incoming held)) <> global_plan_ held
  /\ Path.poses (global_plan_ (snd (setPlan incoming held))) = [].
Proof. cbv zeta. repeat split. discriminate. Qed.

(** The zero-pose path is reported one call later, by the next tick. *)
Lemma empty_plan_fails_the_tick
      (E : Collaborators) (pose : PoseStamped.t) (speed : Twist.t)
      (c : PurePursuitController) :
  Path.poses (global_plan_ c) = [] ->
  computeVelocityCommands E pose speed c
  = (Throw (PlannerException "Received plan with zero length"), c).
Proof.
  intros H. unfold computeVelocityCommands, transformGlobalPlan, bind, get, throw.
  now rewrite H.
Qed.

(** ** The collision interlock *)

(** C1, evaluated.  [isCollisionImminent] hands its caller whatever the
    missing [return] leaves behind.  On a tick that is otherwise fine (the
    robot on the first of three poses, 100 ms after start), the value
    [true] makes [computeVelocityCommands] throw ["PurePursuitController
    detected collision ahead!"]; the value [false] lets the same tick
    return a command. *)
Theorem isCollisionImminent_is_not_fixed :
  (forall E robot_pose carrot_pose,
      isCollisionImminent E robot_pose carrot_pose = flowed_off_end E)
  /\ fst (computeVelocityCommands (Demo.world 0.0 0.0 true)
            (Demo.at_xy "map" 100000000 0.0 0.0) Twist.default
            (Demo.configured (Demo.straight "map")))
     = Throw (runtime_error "PurePursuitController detected collision ahead!")
  /\ exists cmd,
      fst (computeVelocityCommands (Demo.world 0.0 0.0 false)
             (Demo.at_xy "map" 100000000 0.0 0.0) Twist.default
             (Demo.configured (Demo.straight "map")))
      = Return cmd.
Proof.
  split; [reflexivity|]. split; [vm_compute; reflexivity|].
  eexists. vm_compute. reflexivity.
Qed.

(** ** The distance to the carrot *)

(** C6, evaluated.  The robot stands at (4, 5) of frame [map]; the plan's
    only pose is (5, 6), which is (1, 1) in the robot's frame.
    [computeVelocityCommands] measures the distance to that carrot as
    [hypot(4 - 1, 5 - 1) = 5], not as [hypot(1, 1)]; the curvature is then
    2/25 instead of about 1, and the tick emits an angular velocity of 0.04,
    where the same carrot seen from a robot at the origin of [map] gives
    0.1. *)
Theorem carrot_dist_mixes_frames :
  let E := Demo.world 4.0 5.0 false in
  let pose := Demo.at_xy "map" 100000000 4.0 5.0 in
  let held := Demo.configured [Demo.at_xy "map" 0 5.0 6.0] in
  let carrot := Demo.local_pose 1.0 1.0 in
  (exists c', transformGlobalPlan E pose held
              = (Return (Path.mk (Header.mk 100000000 "base_link")
                           [PoseStamped.mk (Header.mk 100000000 "base_link") carrot]), c'))
  /\ carrot_dist E pose carrot = 5.0%float
  /\ hypot E (Point.x (Pose.position carrot)) (Point.y (Pose.position carrot))
     = 1.4142135623730951%float
  /\ curvature carrot (carrot_dist E pose carrot) = 0.08%float
  /\ (exists cmd c', computeVelocityCommands E pose Twist.default held = (Return cmd, c')
                     /\ Demo.angular_z cmd = 0.04%float)
  /\ (exists cmd c',
         computeVelocityCommands (Demo.world 0.0 0.0 false)
           (Demo.at_xy "map" 100000000 0.0 0.0) Twist.default
           (Demo.configured [Demo.at_xy "map" 0 1.0 1.0]) = (Return cmd, c')
         /\ Demo.angular_z cmd = 0.1%float).
Proof.
  cbv zeta. repeat split.
  - eexists. vm_compute. reflexivity.
  - eexists. eexists. split; vm_compute; reflexivity.
  - eexists. eexists. split; vm_compute; reflexivity.
Qed.

(** ** The path window manager *)

Lemma transformPose_failed (E : Collaborators) (frame : string)
      (in_pose out_pose : PoseStamped.t) :
  fst (transformPose E frame in_pose out_pose) = false ->
  snd (transformPose E frame in_pose out_pose) = out_pose.
Proof.
  unfold transformPose.
  destruct (String.eqb _ frame); [discriminate|].
  destruct (tf_transform E in_pose frame); [discriminate | reflexivity].
Qed.

Lemma transform_range_length (E : Collaborators) (plan_frame : string)
      (robot_stamp : Time) (l : list PoseStamped.t) :
  forall transformed_pose,
    List.length (transform_range E plan_frame robot_stamp l transformed_pose)
    = List.length l.
Proof.
  induction l as [|g l IH]; intros transformed_pose; simpl; [reflexivity|].
  now rewrite IH.
Qed.

(** Each entry of the transformed range is the lambda's answer for the
    pose at the same position, started from the entry before it. *)
Lemma transform_range_nth (E : Collaborators) (plan_frame : string)
      (robot_stamp : Time) (l : list PoseStamped.t) :
  forall transformed_pose i,
    (i < List.length l)%nat ->
    nth i (transform_range E plan_frame robot_stamp l transformed_pose) PoseStamped.default
    = transformGlobalPoseToLocal E plan_frame robot_stamp
        (match i with
         | O => transformed_pose
         | S j => nth j (transform_range E plan_frame robot_stamp l transformed_pose)
                      PoseStamped.default
         end)
        (nth i l PoseStamped.default).
Proof.
  induction l as [|g l IH]; intros transformed_pose i Hi; simpl in Hi; [lia|].
  destruct i as [|i]; [reflexivity|].
  cbn [transform_range nth].
  rewrite IH by lia.
  destruct i as [|i]; reflexivity.
Qed.

(** What one call of [transformGlobalPlan] does, case by case. *)
Lemma transformGlobalPlan_run (E : Collaborators) (pose : PoseStamped.t)
      (c : PurePursuitController) :
  let plan := Path.poses (global_plan_ c) in
  let plan_frame := Header.frame_id (Path.header (global_plan_ c)) in
  let tp := transformPose E plan_frame pose PoseStamped.default in
  let robot_pose := snd tp in
  let robot_stamp := Header.stamp (PoseStamped.header robot_pose) in
  let transformed_plan :=
    Path.mk (Header.mk robot_stamp (getBaseFrameID E))
            (transform_range E plan_frame robot_stamp
               (range (transformation_begin E robot_pose plan)
                      (transformation_end E robot_pose plan) plan)
               PoseStamped.default) in
  let pruned :=
    Path.mk (Path.header (global_plan_ c))
            (skipn (transformation_begin E robot_pose plan) plan) in
  transformGlobalPlan E pose c =
  if is_empty plan
  then (Throw (PlannerException "Received plan with zero length"), c)
  else if negb (fst tp)
       then (Throw (PlannerException
                      "Unable to transform robot pose into global plan's frame"), c)
       else (if is_empty (Path.poses transformed_plan)
             then Throw (PlannerException "Resulting plan has 0 poses in it.")
             else Return transformed_plan,
             publish transformed_plan (set_global_plan pruned c)).
Proof.
  cbv zeta. unfold transformGlobalPlan, bind, get, throw, modify, ret.
  destruct (is_empty (Path.poses (global_plan_ c))); [reflexivity|].
  destruct (transformPose E _ pose PoseStamped.default) as [ok robot_pose].
  cbn [fst snd]. destruct ok; cbn [negb]; [|reflexivity].
  match goal with |- context [is_empty ?l] => destruct (is_empty l) end; reflexivity.
Qed.

Lemma range_length {A} (first last : nat) (l : list A) :
  (last <= List.length l)%nat -> List.length (range first last l) = (last - first)%nat.
Proof.
  intros H. unfold range. rewrite length_firstn, length_skipn. lia.
Qed.

Lemma transformation_end_le (E : Collaborators) (robot_pose : PoseStamped.t)
      (plan : list PoseStamped.t) :
  plan <> [] ->
  (transformation_begin E robot_pose plan < List.length plan
   /\ transformation_begin E robot_pose plan <= transformation_end E robot_pose plan
   /\ transformation_end E robot_pose plan <= List.length plan)%nat.
Proof.
  intros Hne. unfold transformation_end.
  pose proof (min_by_lt (fun ps => euclidean_distance E robot_pose ps) plan Hne) as Hb.
  fold (transformation_begin E robot_pose plan) in Hb.
  match goal with |- context [find_if ?p ?l] => pose proof (find_if_le p l) as Hf end.
  rewrite length_skipn in Hf. lia.
Qed.

Lemma range_nth {A} (first last i : nat) (d : A) (l : list A) :
  (i < last - first)%nat -> nth i (range first last l) d = nth (first + i) l d.
Proof.
  intros Hi. unfold range. rewrite nth_firstn, nth_skipn.
  destruct (Nat.ltb_spec i (last - first)); [reflexivity | lia].
Qed.

(** [find_if] stops at once exactly when the first element satisfies the
    predicate. *)
Lemma find_if_skipn_zero {A} (p : A -> bool) (d : A) (n : nat) (l : list A) :
  (n < List.length l)%nat ->
  (find_if p (skipn n l) = 0%nat <-> p (nth n l d) = true).
Proof.
  revert n. induction l as [|a l IH]; intros n Hn; simpl in Hn; [lia|].
  destruct n as [|n].
  - simpl. destruct (p a); split; congruence.
  - simpl. apply IH. lia.
Qed.

(** C10, as the code has it.  For a non-empty held path and a robot pose
    that transforms into the plan's frame, the window has exactly one entry
    per plan pose in [closest, window-end).  That range is empty exactly
    when the closest pose itself is farther from the robot than
    [max_transform_dist]; [transformGlobalPlan] then throws ["Resulting
    plan has 0 poses in it."], and otherwise returns the window.  An entry
    whose transform fails is the entry before it (the default-initialised
    pose for the first entry); no entry is dropped and nothing is thrown
    for it. *)
Theorem transformGlobalPlan_window
        (E : Collaborators) (pose : PoseStamped.t) (c : PurePursuitController)
        (robot_pose : PoseStamped.t) :
  let plan := Path.poses (global_plan_ c) in
  let plan_frame := Header.frame_id (Path.header (global_plan_ c)) in
  plan <> [] ->
  transformPose E plan_frame pose PoseStamped.default = (true, robot_pose) ->
  let closest := transformation_begin E robot_pose plan in
  let window_end := transformation_end E robot_pose plan in
  let robot_stamp := Header.stamp (PoseStamped.header robot_pose) in
  let window :=
    transform_range E plan_frame robot_stamp (range closest window_end plan)
                    PoseStamped.default in
  (closest < List.length plan)%nat
  /\ (closest <= window_end <= List.length plan)%nat
  /\ List.length window = (window_end - closest)%nat
  /\ (window = [] <->
      (max_transform_dist E
       <? euclidean_distance E robot_pose (nth closest plan PoseStamped.default))%float
      = true)
  /\ fst (transformGlobalPlan E pose c)
     = (if is_empty window
        then Throw (PlannerException "Resulting plan has 0 poses in it.")
        else Return (Path.mk (Header.mk robot_stamp (getBaseFrameID E)) window))
  /\ (forall i, (i < window_end - closest)%nat ->
        let previous :=
          match i with
          | O => PoseStamped.default
          | S j => nth j window PoseStamped.default
          end in
        let stamped_pose :=
          PoseStamped.mk (Header.mk robot_stamp plan_frame)
            (PoseStamped.pose (nth (closest + i) plan PoseStamped.default)) in
        let answer := transformPose E (getBaseFrameID E) stamped_pose previous in
        (fst answer = false -> nth i window PoseStamped.default = previous)
        /\ (fst answer = true -> nth i window PoseStamped.default = snd answer)).
Proof.
  cbv zeta. intros Hne Htp.
  destruct (transformation_end_le E robot_pose _ Hne) as (Hb & Hbe & He).
  set (plan := Path.poses (global_plan_ c)) in *.
  set (closest := transformation_begin E robot_pose plan) in *.
  set (window_end := transformation_end E robot_pose plan) in *.
  assert (Hlen : List.length
                   (transform_range E (Header.frame_id (Path.header (global_plan_ c)))
                      (Header.stamp (PoseStamped.header robot_pose))
                      (range closest window_end plan) PoseStamped.default)
                 = (window_end - closest)%nat).
  { rewrite transform_range_length. now apply range_length. }
  split; [exact Hb|]. split; [lia|]. split; [exact Hlen|]. split; [|split].
  - pose proof (find_if_skipn_zero
                  (fun global_plan_pose =>
                     (max_transform_dist E
                      <? euclidean_distance E robot_pose global_plan_pose)%float)
                  PoseStamped.default closest plan Hb) as Hz.
    cbv beta in Hz. rewrite <- Hz.
    assert (Hd : (window_end - closest)%nat
                 = find_if (fun global_plan_pose =>
                              (max_transform_dist E
                               <? euclidean_distance E robot_pose global_plan_pose)%float)
                           (skipn closest plan)).
    { unfold window_end, transformation_end. fold closest. lia. }
    rewrite <- Hd, <- Hlen. split.
    + intros H. now rewrite H.
    + apply length_zero_iff_nil.
  - rewrite (transformGlobalPlan_run E pose c). cbv zeta.
    fold plan. rewrite Htp. cbn [fst snd negb]. fold closest window_end.
    destruct plan as [|p0 plan0] eqn:Hplan; [congruence|]. cbn [is_empty].
    cbn [Path.poses].
    match goal with |- context [is_empty ?l] => destruct (is_empty l) end; reflexivity.
  - intros i Hi.
    rewrite transform_range_nth by (rewrite range_length; lia).
    rewrite (range_nth closest window_end i) by exact Hi.
    unfold transformGlobalPoseToLocal. split.
    + intros Hf. now apply transformPose_failed.
    + intros _. reflexivity.
Qed.

Lemma transformGlobalPlan_window_witness :
  let E := Demo.world 0.0 0.0 false in
  let pose := Demo.at_xy "map" 100000000 0.0 0.0 in
  let c := Demo.configured (Demo.straight "map") in
  let plan := Path.poses (global_plan_ c) in
  let window :=
    transform_range E "map" 100000000
      (range (transformation_begin E pose plan) (transformation_end E pose plan) plan)
      PoseStamped.default in
  plan <> []
  /\ transformPose E "map" pose PoseStamped.default = (true, pose)
  /\ List.length window
     = (transformation_end E pose plan - transformation_begin E pose plan)%nat
  /\ fst (transformGlobalPlan E pose c)
     = (if is_empty window
        then Throw (PlannerException "Resulting plan has 0 poses in it.")
        else Return (Path.mk (Header.mk 100000000 "base_link") window)).
Proof.
  cbv zeta.
  pose proof (transformGlobalPlan_window
                (Demo.world 0.0 0.0 false) (Demo.at_xy "map" 100000000 0.0 0.0)
                (Demo.configured (Demo.straight "map"))
                (Demo.at_xy "map" 100000000 0.0 0.0)) as H.
  cbv zeta in H.
  assert (Hne : Path.poses (global_plan_ (Demo.configured (Demo.straight "map"))) <> [])
    by discriminate.
  specialize (H Hne eq_refl).
  destruct H as (_ & _ & Hlen & _ & Hrun & _).
  split; [exact Hne|]. split; [reflexivity|]. split; [exact Hlen | exact Hrun].
Defined.

(** C10 as stated fails: the held path has one pose, 10 m from a robot whose
    costmap reaches 2.5 m; the robot pose needs no transform; the window has
    no entry and [transformGlobalPlan] throws the empty-window exception. *)
Lemma empty_window_is_reachable :
  let E := Demo.world 0.0 0.0 false in
  let pose := Demo.at_xy "map" 100000000 0.0 0.0 in
  let c := Demo.configured [Demo.at_xy "map" 0 10.0 0.0] in
  let plan := Path.poses (global_plan_ c) in
  plan <> []
  /\ transformPose E "map" pose PoseStamped.default = (true, pose)
  /\ max_transform_dist E = 2.5%float
  /\ transformation_begin E pose plan = 0%nat
  /\ transformation_end E pose plan = 0%nat
  /\ fst (transformGlobalPlan E pose c)
     = Throw (PlannerException "Resulting plan has 0 poses in it.").
Proof.
  cbv zeta. split; [discriminate|]. repeat split; vm_compute; reflexivity.
Qed.

(** A window of three poses, one metre apart, all within reach. *)
Example window_of_straight_plan :
  fst (transformGlobalPlan (Demo.world 0.0 0.0 false)
         (Demo.at_xy "map" 100000000 0.0 0.0) (Demo.configured (Demo.straight "map")))
  = Return (Path.mk (Header.mk 100000000 "base_link")
              [Demo.at_xy "base_link" 100000000 0.0 0.0;
               Demo.at_xy "base_link" 100000000 1.0 0.0;
               Demo.at_xy "base_link" 100000000 2.0 0.0]).
Proof. vm_compute. reflexivity. Qed.

(** The same tick with a transform tree that cannot place the middle pose:
    the window still has three entries, and the second repeats the first.
    With a tree that can place none, all three are the default-initialised
    pose. *)
Example window_with_failed_transforms :
  fst (transformGlobalPlan (Demo.world_with Demo.tf_patchy)
         (Demo.at_xy "map" 100000000 0.0 0.0) (Demo.configured (Demo.straight "map")))
  = Return (Path.mk (Header.mk 100000000 "base_link")
              [Demo.at_xy "base_link" 100000000 0.0 0.0;
               Demo.at_xy "base_link" 100000000 0.0 0.0;
               Demo.at_xy "base_link" 100000000 2.0 0.0])
  /\ fst (transformGlobalPlan (Demo.world_with Demo.tf_none)
            (Demo.at_xy "map" 100000000 0.0 0.0) (Demo.configured (Demo.straight "map")))
     = Return (Path.mk (Header.mk 100000000 "base_link")
                 [PoseStamped.default; PoseStamped.default; PoseStamped.default]).
Proof. vm_compute. split; reflexivity. Qed.

(** ** One tick of [computeVelocityCommands] *)

(** [transformGlobalPlan] leaves the last command and the configuration
    alone, whatever its outcome. *)
Lemma transformGlobalPlan_keeps (E : Collaborators) (pose : PoseStamped.t)
      (c c1 : PurePursuitController) (r : result Path.t) :
  transformGlobalPlan E pose c = (r, c1) ->
  last_cmd_ c1 = last_cmd_ c
  /\ desired_linear_vel_ c1 = desired_linear_vel_ c
  /\ max_angular_vel_ c1 = max_angular_vel_ c.
Proof.
  rewrite transformGlobalPlan_run. cbv zeta.
  destruct (is_empty (Path.poses (global_plan_ c))).
  - intros H. inversion H. auto.
  - destruct (negb _); intros H; inversion H; auto.
Qed.

(** A failure of [transformGlobalPlan] is the failure of the tick. *)
Lemma tick_after_failed_window (E : Collaborators) (pose : PoseStamped.t)
      (speed : Twist.t) (c c1 : PurePursuitController) (e : exn) :
  transformGlobalPlan E pose c = (Throw e, c1) ->
  computeVelocityCommands E pose speed c = (Throw e, c1).
Proof.
  intros H. unfold computeVelocityCommands, bind. now rewrite H.
Qed.

(** After a window was returned, the tick throws on a positive collision
    check, leaving the controller as [transformGlobalPlan] left it, and
    otherwise returns and stores the command built from the limited
    velocities. *)
Lemma tick_after_window (E : Collaborators) (pose : PoseStamped.t)
      (speed : Twist.t) (c c1 : PurePursuitController) (window : Path.t) :
  transformGlobalPlan E pose c = (Return window, c1) ->
  computeVelocityCommands E pose speed c =
  if flowed_off_end E
  then (Throw (runtime_error "PurePursuitController detected collision ahead!"), c1)
  else
    let cmd := cmd_vel E c1 pose (limited_velocity E c1 pose speed window) in
    (Return cmd, set_last_cmd cmd c1).
Proof.
  intros H. unfold computeVelocityCommands, bind, get. rewrite H.
  unfold cmd_vel, limited_velocity, goal_pose, raw_velocity. cbn [fst snd].
  match goal with
  | |- context [applyKinematicConstraints ?a ?b ?c ?d ?e ?f ?g] =>
      destruct (applyKinematicConstraints a b c d e f g) as [linear_vel angular_vel]
  end.
  unfold isCollisionImminent.
  destruct (flowed_off_end E); reflexivity.
Qed.

(** The two ways out of [transformGlobalPlan]: before anything was
    touched, or after the held path was pruned and the window published. *)
Lemma transformGlobalPlan_outcome (E : Collaborators) (pose : PoseStamped.t)
      (c c1 : PurePursuitController) (r : result Path.t) :
  transformGlobalPlan E pose c = (r, c1) ->
  let plan := Path.poses (global_plan_ c) in
  let plan_frame := Header.frame_id (Path.header (global_plan_ c)) in
  let robot_pose := snd (transformPose E plan_frame pose PoseStamped.default) in
  let pruned :=
    Path.mk (Path.header (global_plan_ c))
            (skipn (transformation_begin E robot_pose plan) plan) in
  (c1 = c
   /\ (r = Throw (PlannerException "Received plan with zero length")
       \/ r = Throw (PlannerException
                       "Unable to transform robot pose into global plan's frame")))
  \/ (global_plan_ c1 = pruned
      /\ (r = Throw (PlannerException "Resulting plan has 0 poses in it.")
          \/ exists window, r = Return window)).
Proof.
  rewrite transformGlobalPlan_run. cbv zeta.
  destruct (is_empty (Path.poses (global_plan_ c))).
  - intros H. inversion H. left. auto.
  - destruct (negb _).
    + intros H. inversion H. left. auto.
    + match goal with |- context [is_empty ?l] => destruct (is_empty l) end;
        intros H; inversion H; right; split; try reflexivity; eauto.
Qed.

(** C3, as the code has it.  A tick that fails leaves the last emitted
    command as it was.  It throws one of four exceptions.  On the first two
    (zero-length plan, robot pose not transformable) the whole controller
    is as before the tick.  On the other two (empty window, collision
    ahead) the held path has already lost the poses before the one closest
    to the robot. *)
Theorem failed_tick_state
        (E : Collaborators) (pose : PoseStamped.t) (speed : Twist.t)
        (c c' : PurePursuitController) (e : exn) :
  computeVelocityCommands E pose speed c = (Throw e, c') ->
  let plan := Path.poses (global_plan_ c) in
  let plan_frame := Header.frame_id (Path.header (global_plan_ c)) in
  let robot_pose := snd (transformPose E plan_frame pose PoseStamped.default) in
  let pruned :=
    Path.mk (Path.header (global_plan_ c))
            (skipn (transformation_begin E robot_pose plan) plan) in
  last_cmd_ c' = last_cmd_ c
  /\ (((e = PlannerException "Received plan with zero length"
        \/ e = PlannerException "Unable to transform robot pose into global plan's frame")
       /\ c' = c)
      \/ ((e = PlannerException "Resulting plan has 0 poses in it."
           \/ e = runtime_error "PurePursuitController detected collision ahead!")
          /\ global_plan_ c' = pruned)).
Proof.
  intros H. cbv zeta.
  destruct (transformGlobalPlan E pose c) as [[window|e0] c1] eqn:Ht.
  - rewrite (tick_after_window E pose speed c c1 window Ht) in H.
    destruct (flowed_off_end E); [|discriminate].
    inversion H; subst e c'.
    destruct (transformGlobalPlan_keeps E pose c c1 _ Ht) as (Hlast & _).
    split; [exact Hlast|]. right. split; [now right|].
    destruct (transformGlobalPlan_outcome E pose c c1 _ Ht) as [[_ [Hr|Hr]]|[Hp _]];
      try discriminate. exact Hp.
  - rewrite (tick_after_failed_window E pose speed c c1 e0 Ht) in H.
    inversion H; subst e c'.
    destruct (transformGlobalPlan_keeps E pose c c1 _ Ht) as (Hlast & _).
    split; [exact Hlast|].
    destruct (transformGlobalPlan_outcome E pose c c1 _ Ht)
      as [[Hc [Hr|Hr]]|[Hp [Hr|[w Hr]]]]; inversion Hr; subst; auto.
Qed.

Lemma failed_tick_state_witness :
  let E := Demo.world 200.0 0.0 false in
  let pose := Demo.at_xy "map" 100000000 200.0 0.0 in
  let c := Demo.configured Demo.far_plan in
  let r := computeVelocityCommands E pose Twist.default c in
  let plan := Path.poses (global_plan_ c) in
  let pruned :=
    Path.mk (Path.header (global_plan_ c))
            (skipn (transformation_begin E pose plan) plan) in
  r = (Throw (PlannerException "Resulting plan has 0 poses in it."), snd r)
  /\ last_cmd_ (snd r) = last_cmd_ c
  /\ global_plan_ (snd r) = pruned.
Proof.
  cbv zeta.
  assert (Hr : computeVelocityCommands (Demo.world 200.0 0.0 false)
                 (Demo.at_xy "map" 100000000 200.0 0.0) Twist.default
                 (Demo.configured Demo.far_plan)
               = (Throw (PlannerException "Resulting plan has 0 poses in it."),
                  snd (computeVelocityCommands (Demo.world 200.0 0.0 false)
                         (Demo.at_xy "map" 100000000 200.0 0.0) Twist.default
                         (Demo.configured Demo.far_plan))))
    by (vm_compute; reflexivity).
  split; [exact Hr|].
  destruct (failed_tick_state _ _ _ _ _ _ Hr) as [Hlast [[[H|H] _]|[_ Hp]]];
    try discriminate H.
  split; [exact Hlast | exact Hp].
Defined.

(** C3 as stated fails.  First tick: the robot is at (200, 0), the held
    path is [(0,0); (100,0)] and the costmap reaches 2.5 m; the window is
    empty, the tick throws, and the held path is down to [(100,0)].  Second
    tick: the robot is at (0.9, 0) on the three-pose path and the collision
    check reads [true]; the tick throws, and the held path has lost its
    first pose.  The last command is untouched in both. *)
Lemma failed_tick_prunes_held_path :
  let r1 := computeVelocityCommands (Demo.world 200.0 0.0 false)
              (Demo.at_xy "map" 100000000 200.0 0.0) Twist.default
              (Demo.configured Demo.far_plan) in
  let r2 := computeVelocityCommands (Demo.world 0.9 0.0 true)
              (Demo.at_xy "map" 100000000 0.9 0.0) Twist.default
              (Demo.configured (Demo.straight "map")) in
  (fst r1 = Throw (PlannerException "Resulting plan has 0 poses in it.")
   /\ Path.poses (global_plan_ (Demo.configured Demo.far_plan)) = Demo.far_plan
   /\ Path.poses (global_plan_ (snd r1)) = [Demo.at_xy "map" 0 100.0 0.0]
   /\ last_cmd_ (snd r1) = TwistStamped.default)
  /\ (fst r2 = Throw (runtime_error "PurePursuitController detected collision ahead!")
      /\ Path.poses (global_plan_ (snd r2))
         = [Demo.at_xy "map" 0 1.0 0.0; Demo.at_xy "map" 0 2.0 0.0]
      /\ last_cmd_ (snd r2) = TwistStamped.default).
Proof. cbv zeta. repeat split; vm_compute; reflexivity. Qed.

(** The two early failures, run: an empty held path, and a robot pose in a
    frame the transform tree does not know; the controller is unchanged. *)
Example early_failures_leave_controller :
  computeVelocityCommands (Demo.world 0.0 0.0 false)
    (Demo.at_xy "map" 100000000 0.0 0.0) Twist.default (Demo.configured [])
  = (Throw (PlannerException "Received plan with zero length"), Demo.configured [])
  /\ computeVelocityCommands (Demo.world_with Demo.tf_none)
       (Demo.at_xy "odom" 100000000 0.0 0.0) Twist.default
       (Demo.configured (Demo.straight "map"))
     = (Throw (PlannerException "Unable to transform robot pose into global plan's frame"),
        Demo.configured (Demo.straight "map")).
Proof. split; vm_compute; reflexivity. Qed.

(** ** The kinematic limiter: time step and final clamp *)

(** C4, as the code has it.  No time step is refused.  When the stamp of
    the pose is not later than the stamp of the last emitted command
    ([dt <= 0]), a tick whose window was returned and whose collision check
    reads [false] still emits a command, built from what
    [applyKinematicConstraints] computes for that [dt], and stores it as
    the last one. *)
Theorem nonpositive_dt_is_not_refused
        (E : Collaborators) (pose : PoseStamped.t) (speed : Twist.t)
        (c c1 : PurePursuitController) (window : Path.t) :
  (Header.stamp (PoseStamped.header pose)
   - Header.stamp (TwistStamped.header (last_cmd_ c)) <= 0)%Z ->
  transformGlobalPlan E pose c = (Return window, c1) ->
  flowed_off_end E = false ->
  let cmd := cmd_vel E c1 pose (limited_velocity E c1 pose speed window) in
  computeVelocityCommands E pose speed c = (Return cmd, set_last_cmd cmd c1)
  /\ last_cmd_ (set_last_cmd cmd c1) = cmd.
Proof.
  intros _ Ht Hf. cbv zeta.
  rewrite (tick_after_window E pose speed c c1 window Ht), Hf.
  split; reflexivity.
Qed.

Lemma nonpositive_dt_is_not_refused_witness :
  let E := Demo.world 0.0 0.0 false in
  let pose := Demo.at_xy "map" 1000000000 0.0 0.0 in
  let c := Demo.ticked (Demo.straight "map") in
  let window := Path.mk (Header.mk 1000000000 "base_link")
                  [Demo.at_xy "base_link" 1000000000 0.0 0.0;
                   Demo.at_xy "base_link" 1000000000 1.0 0.0;
                   Demo.at_xy "base_link" 1000000000 2.0 0.0] in
  let c1 := snd (transformGlobalPlan E pose c) in
  let cmd := cmd_vel E c1 pose (limited_velocity E c1 pose Twist.default window) in
  (Header.stamp (PoseStamped.header pose)
   - Header.stamp (TwistStamped.header (last_cmd_ c)) = -1000000000)%Z
  /\ limited_velocity E c1 pose Twist.default window = (0.74999999999999989, 0.0)%float
  /\ Demo.linear_x cmd = 0.5%float
  /\ computeVelocityCommands E pose Twist.default c = (Return cmd, set_last_cmd cmd c1)
  /\ last_cmd_ (set_last_cmd cmd c1) = cmd.
Proof.
  cbv zeta. split; [reflexivity|]. split; [vm_compute; reflexivity|].
  split; [vm_compute; reflexivity|].
  apply (nonpositive_dt_is_not_refused
           (Demo.world 0.0 0.0 false) (Demo.at_xy "map" 1000000000 0.0 0.0)
           Twist.default (Demo.ticked (Demo.straight "map"))).
  - vm_compute. discriminate.
  - vm_compute. reflexivity.
  - reflexivity.
Defined.

(** C4 as stated fails.  With [dt = 0] (pose and last command both stamped
    0) the tick returns the command (0, 0): the measured linear
    acceleration is infinite and the linear velocity is held at its last
    value.  With [dt = -1 s] (a pose stamped 1 s, the last command stamped
    2 s) the tick returns the command (0.5, 0): the measured linear
    acceleration is negative and within the deceleration bound, so the
    requested velocity passes the limiter and the final clamp brings it to
    the desired 0.5. *)
Lemma nonpositive_dt_tick_emits :
  let E := Demo.world 0.0 0.0 false in
  let r0 := computeVelocityCommands E (Demo.at_xy "map" 0 0.0 0.0) Twist.default
              (Demo.configured (Demo.straight "map")) in
  let r1 := computeVelocityCommands E (Demo.at_xy "map" 1000000000 0.0 0.0) Twist.default
              (Demo.ticked (Demo.straight "map")) in
  (seconds (0 - 0) = 0.0%float
   /\ exists cmd, fst r0 = Return cmd
                  /\ Demo.linear_x cmd = 0.0%float /\ Demo.angular_z cmd = 0.0%float)
  /\ (seconds (1000000000 - 2000000000) = (-1.0)%float
      /\ exists cmd, fst r1 = Return cmd
                     /\ Demo.linear_x cmd = 0.5%float /\ Demo.angular_z cmd = 0.0%float).
Proof.
  cbv zeta. split; (split; [vm_compute; reflexivity|]);
    eexists; vm_compute; repeat split; reflexivity.
Qed.

(** ** The emitted command *)




(** * Further properties of the controller *)

Local Open Scope nat_scope.

(** ** The closest-pose search, [min_by] *)

Lemma min_by_loop_minimum {A} (f : A -> double) (d : A) (l : list A) :
  forall (p : list A) (lowest : double) (lowest_it : nat),
    Forall (fun a => is_nan (f a) = false) (p ++ l) ->
    lowest_it < List.length p ->
    f (nth lowest_it p d) = lowest ->
    Forall (fun a => (lowest <=? f a)%float = true) p ->
    Forall (fun a => (lowest <? f a)%float = true) (firstn lowest_it p) ->
    let r := min_by_loop f l (List.length p) lowest lowest_it in
    r < List.length (p ++ l)
    /\ Forall (fun a => (f (nth r (p ++ l) d) <=? f a)%float = true) (p ++ l)
    /\ Forall (fun a => (f (nth r (p ++ l) d) <? f a)%float = true) (firstn r (p ++ l)).
Proof.
  induction l as [|a l IH]; intros p lowest lowest_it Hnum Hit Hlow Hle Hlt; cbv zeta.
  - simpl. rewrite app_nil_r in *. rewrite Hlow. auto.
  - cbn [min_by_loop].
    assert (Hnum' : Forall (fun a => is_nan (f a) = false) ((p ++ [a]) ++ l))
      by now rewrite <- app_assoc.
    assert (Ha : is_nan (f a) = false).
    { rewrite Forall_app in Hnum. destruct Hnum as [_ Hn].
      now inversion Hn. }
    assert (Hl : is_nan lowest = false).
    { rewrite Forall_app in Hnum. destruct Hnum as [Hn _].
      rewrite <- Hlow. rewrite Forall_forall in Hn. apply Hn. now apply nth_In. }
    replace (p ++ a :: l) with ((p ++ [a]) ++ l) by now rewrite <- app_assoc.
    replace (S (List.length p)) with (List.length (p ++ [a]))
      by (rewrite length_app; simpl; lia).
    destruct (f a <? lowest)%float eqn:Hc.
    + apply IH; try assumption.
      * rewrite length_app. simpl. lia.
      * now rewrite nth_middle.
      * rewrite Forall_app. split.
        -- eapply Forall_impl; [|exact Hle]. intros x Hx. cbv beta in Hx.
           apply Binary64.ltb_leb. now apply (Binary64.ltb_leb_trans _ lowest).
        -- constructor; [now apply Binary64.leb_refl | constructor].
      * rewrite firstn_app, Nat.sub_diag, firstn_all. simpl. rewrite app_nil_r.
        eapply Forall_impl; [|exact Hle]. intros x Hx. cbv beta in Hx.
        now apply (Binary64.ltb_leb_trans _ lowest).
    + apply IH; try assumption.
      * rewrite length_app. simpl. lia.
      * now rewrite app_nth1.
      * rewrite Forall_app. split; [exact Hle|].
        constructor; [now apply Binary64.ltb_false_leb | constructor].
      * rewrite firstn_app. replace (lowest_it - List.length p) with 0 by lia.
        simpl. now rewrite app_nil_r.
Qed.

(** X1.  On a non-empty range whose calculated values are all numbers,
    [min_by] returns a position inside the range; the value there is at
    most every value of the range (a minimum) and strictly below every
    value before it (the first minimum: ties go to the earliest
    position). *)
Theorem min_by_is_first_minimum {A} (f : A -> double) (d : A) (l : list A) :
  l <> [] ->
  Forall (fun a => is_nan (f a) = false) l ->
  let r := min_by f l in
  r < List.length l
  /\ Forall (fun a => (f (nth r l d) <=? f a)%float = true) l
  /\ Forall (fun a => (f (nth r l d) <? f a)%float = true) (firstn r l).
Proof.
  destruct l as [|a l]; [congruence|]. intros _ Hnum. cbv zeta.
  unfold min_by.
  apply (min_by_loop_minimum f d l [a] (f a) 0); simpl; auto.
  - constructor; [|constructor]. apply Binary64.leb_refl. now inversion Hnum.
Qed.

Lemma min_by_is_first_minimum_witness :
  let robot := Demo.at_xy "map" 0 0.9 0.0 in
  let f := Demo.planar_distance robot in
  let l := Demo.straight "map" in
  min_by f l = 1
  /\ min_by f l < List.length l
  /\ Forall (fun a => (f (nth (min_by f l) l PoseStamped.default) <=? f a)%float = true) l
  /\ Forall (fun a => (f (nth (min_by f l) l PoseStamped.default) <? f a)%float = true)
            (firstn (min_by f l) l).
Proof.
  cbv zeta. split; [vm_compute; reflexivity|].
  apply (min_by_is_first_minimum
           (Demo.planar_distance (Demo.at_xy "map" 0 0.9 0.0))
           PoseStamped.default (Demo.straight "map")).
  - discriminate.
  - repeat constructor.
Defined.

(** Once the lowest value is a NaN no later value replaces it. *)
Lemma min_by_loop_nan {A} (f : A -> double) (l : list A) :
  forall idx lowest lowest_it,
    is_nan lowest = true -> min_by_loop f l idx lowest lowest_it = lowest_it.
Proof.
  induction l as [|a l IH]; intros idx lowest lowest_it Hn; simpl; [reflexivity|].
  destruct (f a <? lowest)%float eqn:Hc.
  - apply Binary64.ltb_not_nan in Hc. destruct Hc as [_ Hc]. congruence.
  - now apply IH.
Qed.

(** The loop answers the position it was given, or a later position whose
    value is a number below the running minimum at that point. *)
Lemma min_by_loop_choice {A} (f : A -> double) (d : A) (l : list A) :
  forall idx lowest lowest_it,
    let r := min_by_loop f l idx lowest lowest_it in
    r = lowest_it
    \/ (idx <= r /\ r - idx < List.length l
        /\ is_nan (f (nth (r - idx) l d)) = false).
Proof.
  induction l as [|a l IH]; intros idx lowest lowest_it; cbv zeta; simpl; [now left|].
  destruct (f a <? lowest)%float eqn:Hc.
  - destruct (IH (S idx) (f a) idx) as [Hr|(Hi & Hlen & Hn)].
    + right. rewrite Hr. rewrite Nat.sub_diag. simpl.
      apply Binary64.ltb_not_nan in Hc. split; [lia|]. split; [lia|tauto].
    + right. split; [lia|]. split; [lia|].
      replace (min_by_loop f l (S idx) (f a) idx - idx)
        with (S (min_by_loop f l (S idx) (f a) idx - S idx)) by lia.
      exact Hn.
  - destruct (IH (S idx) lowest lowest_it) as [Hr|(Hi & Hlen & Hn)]; [now left|].
    right. split; [lia|]. split; [lia|].
    replace (min_by_loop f l (S idx) lowest lowest_it - idx)
      with (S (min_by_loop f l (S idx) lowest lowest_it - S idx)) by lia.
    exact Hn.
Qed.

(** X2.  [min_by] compares with [<] only, and no NaN is below anything.
    When the first calculated value is a NaN, the first position is
    returned whatever follows; and a position other than the first is
    returned only when the value there is a number. *)
Theorem min_by_skips_nan {A} (f : A -> double) (d : A) (a : A) (l : list A) :
  (is_nan (f a) = true -> min_by f (a :: l) = 0)
  /\ (0 < min_by f (a :: l) ->
      is_nan (f (nth (min_by f (a :: l)) (a :: l) d)) = false).
Proof.
  split.
  - intros Hn. simpl. now apply min_by_loop_nan.
  - simpl. intros Hpos.
    destruct (min_by_loop_choice f d l 1 (f a) 0) as [Hr|(Hi & Hlen & Hn)]; [lia|].
    destruct (min_by_loop f l 1 (f a) 0) as [|r]; [lia|].
    now replace (S r - 1) with r in Hn by lia.
Qed.

(** A NaN distance to the first pose hides the pose 0.1 m away; a NaN
    distance to the second pose is passed over. *)
Example min_by_with_nan :
  let f := fun x : double => x in
  min_by f [nan; 0.1; 0.9]%float = 0
  /\ min_by f [0.9; nan; 0.1]%float = 2.
Proof. split; reflexivity. Qed.

(** No value after the chosen position is below the chosen value. *)
Lemma min_by_loop_rest {A} (f : A -> double) (d : A) (l : list A) :
  forall idx lowest lowest_it,
    let r := min_by_loop f l idx lowest lowest_it in
    (r = lowest_it /\ Forall (fun a => (f a <? lowest)%float = false) l)
    \/ (idx <= r /\ r - idx < List.length l
        /\ Forall (fun a => (f a <? f (nth (r - idx) l d))%float = false)
                  (skipn (S (r - idx)) l)).
Proof.
  induction l as [|a l IH]; intros idx lowest lowest_it; cbv zeta; simpl; [now left|].
  destruct (f a <? lowest)%float eqn:Hc.
  - destruct (IH (S idx) (f a) idx) as [[Hr Hall]|(Hi & Hlen & Hall)].
    + right. rewrite Hr, Nat.sub_diag. simpl. split; [lia|]. split; [lia|exact Hall].
    + right. split; [lia|]. split; [lia|].
      replace (min_by_loop f l (S idx) (f a) idx - idx)
        with (S (min_by_loop f l (S idx) (f a) idx - S idx)) by lia.
      exact Hall.
  - destruct (IH (S idx) lowest lowest_it) as [[Hr Hall]|(Hi & Hlen & Hall)].
    + left. split; [exact Hr|]. now constructor.
    + right. split; [lia|]. split; [lia|].
      replace (min_by_loop f l (S idx) lowest lowest_it - idx)
        with (S (min_by_loop f l (S idx) lowest lowest_it - S idx)) by lia.
      exact Hall.
Qed.

Lemma min_by_loop_stays {A} (f : A -> double) (l : list A) :
  forall idx lowest lowest_it,
    Forall (fun a => (f a <? lowest)%float = false) l ->
    min_by_loop f l idx lowest lowest_it = lowest_it.
Proof.
  induction l as [|a l IH]; intros idx lowest lowest_it Hall; simpl; [reflexivity|].
  inversion Hall as [|? ? Ha Hl]; subst. rewrite Ha. now apply IH.
Qed.

Lemma skipn_nth_cons {A} (d : A) (n : nat) (l : list A) :
  n < List.length l -> skipn n l = nth n l d :: skipn (S n) l.
Proof.
  revert n. induction l as [|a l IH]; intros n Hn; simpl in Hn; [lia|].
  destruct n as [|n]; [reflexivity|]. simpl. apply IH. lia.
Qed.

(** Searching again from the chosen position chooses it again. *)
Lemma min_by_skipn_min_by {A} (f : A -> double) (l : list A) :
  min_by f (skipn (min_by f l) l) = 0.
Proof.
  destruct l as [|a l]; [reflexivity|].
  unfold min_by at 2.
  destruct (min_by_loop_rest f a l 1 (f a) 0) as [[Hr Hall]|(Hi & Hlen & Hall)].
  - rewrite Hr. simpl. now apply min_by_loop_stays.
  - destruct (min_by_loop f l 1 (f a) 0) as [|r]; [lia|].
    replace (S r - 1) with r in * by lia.
    cbn [skipn]. rewrite (skipn_nth_cons a r l Hlen). simpl.
    now apply min_by_loop_stays.
Qed.

(** ** Pruning *)

Lemma skipn_is_empty {A} (n : nat) (l : list A) :
  n < List.length l -> is_empty (skipn n l) = false.
Proof.
  revert n. induction l as [|a l IH]; intros n Hn; simpl in Hn; [lia|].
  destruct n as [|n]; [reflexivity|]. simpl. apply IH. lia.
Qed.

Lemma transformation_begin_pruned (E : Collaborators) (robot_pose : PoseStamped.t)
      (plan : list PoseStamped.t) :
  transformation_begin E robot_pose
    (skipn (transformation_begin E robot_pose plan) plan) = 0.
Proof. unfold transformation_begin. apply min_by_skipn_min_by. Qed.

Lemma window_source_pruned (E : Collaborators) (robot_pose : PoseStamped.t)
      (plan : list PoseStamped.t) :
  let pruned := skipn (transformation_begin E robot_pose plan) plan in
  range (transformation_begin E robot_pose pruned)
        (transformation_end E robot_pose pruned) pruned
  = range (transformation_begin E robot_pose plan)
          (transformation_end E robot_pose plan) plan.
Proof.
  cbv zeta. unfold transformation_end. rewrite transformation_begin_pruned.
  unfold range. cbn [skipn Nat.add]. rewrite Nat.sub_0_r.
  f_equal. lia.
Qed.

(** X3.  Pruning is idempotent for a robot that stands still: calling
    [transformGlobalPlan] a second time with the same pose and the same
    answers of the collaborators gives the outcome of the first call (the
    same window or the same exception) and leaves the held path as the
    first call left it. *)
Theorem transformGlobalPlan_again
        (E : Collaborators) (pose : PoseStamped.t)
        (c c1 : PurePursuitController) (r : result Path.t) :
  transformGlobalPlan E pose c = (r, c1) ->
  fst (transformGlobalPlan E pose c1) = r
  /\ global_plan_ (snd (transformGlobalPlan E pose c1)) = global_plan_ c1.
Proof.
  rewrite !transformGlobalPlan_run. cbv zeta.
  destruct (is_empty (Path.poses (global_plan_ c))) eqn:Hemp.
  - intros H. inversion H; subst. rewrite Hemp. auto.
  - destruct (negb (fst (transformPose E _ pose PoseStamped.default))) eqn:Hok.
    + intros H. inversion H; subst. rewrite Hemp, Hok. auto.
    + intros H. inversion H as [[Hr Hc]]. clear H.
      cbn [global_plan_ publish set_global_plan Path.poses Path.header].
      set (plan := Path.poses (global_plan_ c)) in *.
      set (rp := snd (transformPose E (Header.frame_id (Path.header (global_plan_ c)))
                        pose PoseStamped.default)) in *.
      assert (Hb : transformation_begin E rp plan < List.length plan).
      { apply transformation_end_le. intros Hnil. rewrite Hnil in Hemp. discriminate. }
      rewrite (skipn_is_empty _ _ Hb), Hok.
      pose proof (window_source_pruned E rp plan) as Hw. cbv zeta in Hw.
      rewrite Hw, transformation_begin_pruned. cbn [fst snd skipn]. auto.
Qed.

Lemma transformGlobalPlan_again_witness :
  let E := Demo.world 0.9 0.0 false in
  let pose := Demo.at_xy "map" 100000000 0.9 0.0 in
  let first := transformGlobalPlan E pose (Demo.configured (Demo.straight "map")) in
  let second := transformGlobalPlan E pose (snd first) in
  Path.poses (global_plan_ (snd first))
  = [Demo.at_xy "map" 0 1.0 0.0; Demo.at_xy "map" 0 2.0 0.0]
  /\ fst second = fst first
  /\ global_plan_ (snd second) = global_plan_ (snd first).
Proof.
  cbv zeta. split; [vm_compute; reflexivity|].
  apply (transformGlobalPlan_again
           (Demo.world 0.9 0.0 false) (Demo.at_xy "map" 100000000 0.9 0.0)
           (Demo.configured (Demo.straight "map"))).
  apply surjective_pairing.
Defined.

Lemma find_if_prefix {A} (p : A -> bool) (l : list A) :
  Forall (fun a => p a = false) (firstn (find_if p l) l).
Proof.
  induction l as [|a l IH]; simpl; [constructor|].
  destruct (p a) eqn:Hpa; simpl; [constructor|]. now constructor.
Qed.

Lemma find_if_stop {A} (p : A -> bool) (d : A) (l : list A) :
  find_if p l < List.length l -> p (nth (find_if p l) l d) = true.
Proof.
  induction l as [|a l IH]; simpl; [lia|].
  destruct (p a) eqn:Hpa; [auto|]. intros H. apply IH. lia.
Qed.

(** One tick: what happens to the held path. *)
Lemma tick_held_path (E : Collaborators) (pose : PoseStamped.t) (speed : Twist.t)
      (c : PurePursuitController) :
  exists n,
    global_plan_ (snd (computeVelocityCommands E pose speed c))
    = Path.mk (Path.header (global_plan_ c)) (skipn n (Path.poses (global_plan_ c)))
    /\ (Path.poses (global_plan_ c) <> [] -> n < List.length (Path.poses (global_plan_ c))).
Proof.
  assert (Hsame : global_plan_ c
                  = Path.mk (Path.header (global_plan_ c))
                            (skipn 0 (Path.poses (global_plan_ c))))
    by now destruct (global_plan_ c).
  destruct (transformGlobalPlan E pose c) as [r c1] eqn:Ht.
  assert (Hplan : exists n,
             global_plan_ c1
             = Path.mk (Path.header (global_plan_ c))
                       (skipn n (Path.poses (global_plan_ c)))
             /\ (Path.poses (global_plan_ c) <> [] ->
                 n < List.length (Path.poses (global_plan_ c)))).
  { pose proof Ht as Ht'. rewrite transformGlobalPlan_run in Ht'. cbv zeta in Ht'.
    destruct (is_empty (Path.poses (global_plan_ c))) eqn:Hemp.
    - inversion Ht'; subst. exists 0. split; [exact Hsame|].
      destruct (Path.poses (global_plan_ c1)); [congruence | simpl; lia].
    - destruct (negb _).
      + inversion Ht'; subst. exists 0. split; [exact Hsame|].
        destruct (Path.poses (global_plan_ c1)); [congruence | simpl; lia].
      + inversion Ht'; subst. eexists. split; [reflexivity|].
        intros Hne. now apply transformation_end_le. }
  destruct r as [window|e].
  - rewrite (tick_after_window E pose speed c c1 window Ht).
    destruct (flowed_off_end E); exact Hplan.
  - rewrite (tick_after_failed_window E pose speed c c1 e Ht). exact Hplan.
Qed.

Lemma skipn_skipn_path {A} (n m : nat) (l : list A) :
  skipn n (skipn m l) = skipn (m + n) l.
Proof.
  revert l. induction m as [|m IH]; intros l; [reflexivity|].
  destruct l as [|a l]; [now rewrite !skipn_nil|]. simpl. apply IH.
Qed.

(** X4.  After any series of [setPlan] and [computeVelocityCommands]
    calls, throwing or not, the held path is the path of the last
    [setPlan] (the path held at the start when there was none) without
    some of its first poses: same header, no pose added or reordered.  When
    that path has a pose, so has the held path: ticks alone never empty
    it. *)
Theorem held_path_after_calls (ks : list Call) (c : PurePursuitController) :
  let set := plan_set_last ks (global_plan_ c) in
  exists n,
    global_plan_ (after_calls ks c)
    = Path.mk (Path.header set) (skipn n (Path.poses set))
    /\ (Path.poses set <> [] -> n < List.length (Path.poses set)).
Proof.
  cbv zeta. unfold after_calls.
  assert (Hgen : forall ks c set m,
             global_plan_ c = Path.mk (Path.header set) (skipn m (Path.poses set)) ->
             (Path.poses set <> [] -> m < List.length (Path.poses set)) ->
             exists n,
               global_plan_ (fold_left after_call ks c)
               = Path.mk (Path.header (plan_set_last ks set))
                         (skipn n (Path.poses (plan_set_last ks set)))
               /\ (Path.poses (plan_set_last ks set) <> [] ->
                   n < List.length (Path.poses (plan_set_last ks set)))).
  { clear. induction ks as [|k ks IH]; intros c set m Hc Hm; simpl.
    - exists m. auto.
    - destruct k as [path|E pose speed]; simpl.
      + apply (IH _ path 0).
        * now destruct path.
        * destruct (Path.poses path); [congruence | simpl; lia].
      + destruct (tick_held_path E pose speed c) as (n & Hn & Hlt).
        apply (IH _ set (m + n)).
        * rewrite Hn, Hc. simpl. now rewrite skipn_skipn_path.
        * intros Hne. specialize (Hm Hne).
          rewrite Hc in Hlt. simpl in Hlt.
          assert (Hs : skipn m (Path.poses set) <> []).
          { intros Hnil. apply (f_equal (@List.length _)) in Hnil.
            rewrite length_skipn in Hnil. simpl in Hnil. lia. }
          specialize (Hlt Hs). rewrite length_skipn in Hlt. lia. }
  apply (Hgen ks c (global_plan_ c) 0).
  - now destruct (global_plan_ c).
  - destruct (Path.poses (global_plan_ c)); [congruence | simpl; lia].
Qed.

(** ** The window *)

(** X5.  A returned window is built from the plan poses from the closest
    one up to, and without, the first pose farther from the robot than
    [max_transform_dist]: none of the poses it is built from is out of
    reach, and the plan pose right after them, when there is one, is. *)
Theorem window_is_cut_at_first_pose_out_of_reach
        (E : Collaborators) (pose : PoseStamped.t)
        (c c1 : PurePursuitController) (window : Path.t) :
  transformGlobalPlan E pose c = (Return window, c1) ->
  let plan := Path.poses (global_plan_ c) in
  let plan_frame := Header.frame_id (Path.header (global_plan_ c)) in
  let robot_pose := snd (transformPose E plan_frame pose PoseStamped.default) in
  let closest := transformation_begin E robot_pose plan in
  let window_end := transformation_end E robot_pose plan in
  let out_of_reach g :=
    (max_transform_dist E <? euclidean_distance E robot_pose g)%float in
  Path.poses window
  = transform_range E plan_frame (Header.stamp (PoseStamped.header robot_pose))
      (range closest window_end plan) PoseStamped.default
  /\ Forall (fun g => out_of_reach g = false) (range closest window_end plan)
  /\ (window_end < List.length plan ->
      out_of_reach (nth window_end plan PoseStamped.default) = true).
Proof.
  intros Ht. cbv zeta.
  rewrite transformGlobalPlan_run in Ht. cbv zeta in Ht.
  destruct (is_empty (Path.poses (global_plan_ c))); [discriminate|].
  destruct (negb _); [discriminate|].
  match type of Ht with context [is_empty ?l] => destruct (is_empty l) end;
    [discriminate|].
  inversion Ht; subst. cbn [Path.poses]. split; [reflexivity|].
  unfold transformation_end, range.
  set (plan := Path.poses (global_plan_ c)).
  set (rp := snd (transformPose E _ pose PoseStamped.default)).
  set (b := transformation_begin E rp plan).
  set (p := fun g => (max_transform_dist E <? euclidean_distance E rp g)%float).
  replace (b + find_if p (skipn b plan) - b) with (find_if p (skipn b plan)) by lia.
  split; [apply (find_if_prefix p)|].
  intros Hlt. rewrite <- nth_skipn.
  apply (find_if_stop p). rewrite length_skipn. lia.
Qed.

Lemma window_is_cut_at_first_pose_out_of_reach_witness :
  let E := Demo.world 0.0 0.0 false in
  let pose := Demo.at_xy "map" 100000000 0.0 0.0 in
  let plan := Demo.straight "map" ++ [Demo.at_xy "map" 0 10.0 0.0] in
  let out_of_reach g := (max_transform_dist E <? euclidean_distance E pose g)%float in
  transformation_begin E pose plan = 0
  /\ transformation_end E pose plan = 3
  /\ Forall (fun g => out_of_reach g = false) (range 0 3 plan)
  /\ out_of_reach (nth 3 plan PoseStamped.default) = true.
Proof.
  cbv zeta.
  assert (Hrun : transformGlobalPlan (Demo.world 0.0 0.0 false)
                   (Demo.at_xy "map" 100000000 0.0 0.0)
                   (Demo.configured (Demo.straight "map" ++ [Demo.at_xy "map" 0 10.0 0.0]))
                 = (Return (Path.mk (Header.mk 100000000 "base_link")
                              [Demo.at_xy "base_link" 100000000 0.0 0.0;
                               Demo.at_xy "base_link" 100000000 1.0 0.0;
                               Demo.at_xy "base_link" 100000000 2.0 0.0]),
                    snd (transformGlobalPlan (Demo.world 0.0 0.0 false)
                           (Demo.at_xy "map" 100000000 0.0 0.0)
                           (Demo.configured
                              (Demo.straight "map" ++ [Demo.at_xy "map" 0 10.0 0.0])))))
    by (vm_compute; reflexivity).
  destruct (window_is_cut_at_first_pose_out_of_reach _ _ _ _ _ Hrun) as (_ & Hin & Hout).
  split; [reflexivity|]. split; [reflexivity|]. split; [exact Hin|].
  apply Hout. vm_compute. lia.
Defined.

Lemma transform_range_same_frame (E : Collaborators) (robot_stamp : Time)
      (l : list PoseStamped.t) :
  forall transformed_pose,
    transform_range E (getBaseFrameID E) robot_stamp l transformed_pose
    = map (fun g => PoseStamped.mk (Header.mk robot_stamp (getBaseFrameID E))
                                   (PoseStamped.pose g)) l.
Proof.
  induction l as [|g l IH]; intros transformed_pose; [reflexivity|].
  cbn [transform_range map]. rewrite IH. f_equal.
  unfold transformGlobalPoseToLocal, transformPose. cbn.
  now rewrite String.eqb_refl.
Qed.

(** X6.  When the held path is already given in the costmap's base frame,
    the entries of a returned window are the plan poses of the range
    themselves, each under a header with the robot pose's stamp and the
    base frame: the transform tree is not asked about any of them. *)
Theorem plan_in_base_frame_needs_no_transform
        (E : Collaborators) (pose : PoseStamped.t)
        (c c1 : PurePursuitController) (window : Path.t) :
  Header.frame_id (Path.header (global_plan_ c)) = getBaseFrameID E ->
  transformGlobalPlan E pose c = (Return window, c1) ->
  let plan := Path.poses (global_plan_ c) in
  let robot_pose := snd (transformPose E (getBaseFrameID E) pose PoseStamped.default) in
  let robot_stamp := Header.stamp (PoseStamped.header robot_pose) in
  Path.poses window
  = map (fun g => PoseStamped.mk (Header.mk robot_stamp (getBaseFrameID E))
                                 (PoseStamped.pose g))
        (range (transformation_begin E robot_pose plan)
               (transformation_end E robot_pose plan) plan).
Proof.
  intros Hf Ht. cbv zeta.
  rewrite transformGlobalPlan_run in Ht. cbv zeta in Ht. rewrite Hf in Ht.
  destruct (is_empty (Path.poses (global_plan_ c))); [discriminate|].
  destruct (negb _); [discriminate|].
  match type of Ht with context [is_empty ?l] => destruct (is_empty l) end;
    [discriminate|].
  inversion Ht; subst. cbn [Path.poses].
  apply transform_range_same_frame.
Qed.

Lemma plan_in_base_frame_needs_no_transform_witness :
  let E := Demo.world_with Demo.tf_none in
  let pose := Demo.at_xy "base_link" 100000000 0.0 0.0 in
  let c := set_global_plan (Path.mk (Header.mk 0 "base_link") (Demo.straight "base_link"))
                           (Demo.configured []) in
  exists window c1,
    transformGlobalPlan E pose c = (Return window, c1)
    /\ Path.poses window
       = [Demo.at_xy "base_link" 100000000 0.0 0.0;
          Demo.at_xy "base_link" 100000000 1.0 0.0;
          Demo.at_xy "base_link" 100000000 2.0 0.0].
Proof.
  cbv zeta.
  assert (Hrun : transformGlobalPlan (Demo.world_with Demo.tf_none)
                   (Demo.at_xy "base_link" 100000000 0.0 0.0)
                   (set_global_plan
                      (Path.mk (Header.mk 0 "base_link") (Demo.straight "base_link"))
                      (Demo.configured []))
                 = (Return (Path.mk (Header.mk 100000000 "base_link")
                              [Demo.at_xy "base_link" 100000000 0.0 0.0;
                               Demo.at_xy "base_link" 100000000 1.0 0.0;
                               Demo.at_xy "base_link" 100000000 2.0 0.0]),
                    snd (transformGlobalPlan (Demo.world_with Demo.tf_none)
                           (Demo.at_xy "base_link" 100000000 0.0 0.0)
                           (set_global_plan
                              (Path.mk (Header.mk 0 "base_link")
                                 (Demo.straight "base_link"))
                              (Demo.configured [])))))
    by (vm_compute; reflexivity).
  eexists. eexists. split; [exact Hrun|].
  assert (Hframe : Header.frame_id (Path.header (global_plan_
                      (set_global_plan
                         (Path.mk (Header.mk 0 "base_link") (Demo.straight "base_link"))
                         (Demo.configured []))))
                   = getBaseFrameID (Demo.world_with Demo.tf_none))
    by reflexivity.
  rewrite (plan_in_base_frame_needs_no_transform _ _ _ _ _ Hframe Hrun).
  vm_compute. reflexivity.
Defined.

(** ** The lookahead distance *)

(** X7.  With velocity scaling switched on and [min_lookahead_dist_] not
    above [max_lookahead_dist_], [getLookAheadDistance] is a NaN exactly
    when speed times gain is a NaN, and otherwise lies between the two
    bounds. *)
Theorem getLookAheadDistance_range (c : PurePursuitController) (speed : Twist.t) :
  use_velocity_scaled_lookahead_dist_ c = true ->
  (min_lookahead_dist_ c <=? max_lookahead_dist_ c)%float = true ->
  let scaled := (Vector3.x (Twist.linear speed) * lookahead_gain_ c)%float in
  let lookahead := getLookAheadDistance c speed in
  is_nan lookahead = is_nan scaled
  /\ (is_nan scaled = false ->
      (min_lookahead_dist_ c <=? lookahead)%float = true
      /\ (lookahead <=? max_lookahead_dist_ c)%float = true).
Proof.
  intros Hs Hb. cbv zeta. unfold getLookAheadDistance. rewrite Hs.
  set (v := (Vector3.x (Twist.linear speed) * lookahead_gain_ c)%float).
  destruct (is_nan v) eqn:Hv.
  - rewrite (Binary64.clamp_nan v _ _ Hv). split; [exact Hv | discriminate].
  - pose proof (Binary64.clamp_number v _ _ Hb Hv) as Hn. split; [exact Hn|]. intros _.
    destruct (Binary64.clamp_range v _ _ Hb) as [Hc|Hc]; [congruence | exact Hc].
Qed.

Lemma getLookAheadDistance_range_witness :
  let c := mkController Path.default TwistStamped.default []
             0.5 1.0 1.0 0.4 0.3 0.6 1.5 1.0 true in
  let speed := Twist.mk (Vector3.mk 0.3 0.0 0.0) Vector3.zero in
  getLookAheadDistance c speed = (0.3 * 1.5)%float
  /\ (0.3 <=? getLookAheadDistance c speed)%float = true
  /\ (getLookAheadDistance c speed <=? 0.6)%float = true.
Proof.
  cbv zeta. split; [vm_compute; reflexivity|].
  apply (getLookAheadDistance_range
           (mkController Path.default TwistStamped.default []
              0.5 1.0 1.0 0.4 0.3 0.6 1.5 1.0 true)
           (Twist.mk (Vector3.mk 0.3 0.0 0.0) Vector3.zero));
    reflexivity.
Defined.

(** The bounds saturate: a robot at rest gets the lower bound, an infinite
    speed the upper one, and a NaN speed a NaN. *)
Example getLookAheadDistance_saturates :
  let c := mkController Path.default TwistStamped.default []
             0.5 1.0 1.0 0.4 0.3 0.6 1.5 1.0 true in
  let at_speed v := getLookAheadDistance c (Twist.mk (Vector3.mk v 0.0 0.0) Vector3.zero) in
  at_speed 0.0%float = 0.3%float
  /\ at_speed infinity = 0.6%float
  /\ is_nan (at_speed nan) = true.
Proof. cbv zeta. repeat split; vm_compute; reflexivity. Qed.

(** ** What a tick leaves behind *)

(** X8.  A tick that returns a command has stored that command as the last
    one; the command is stamped with the controller's clock and carries
    the frame of the pose handed in; of its twist only the linear x and
    the angular z component are set, the other four are 0; and exactly one
    path, a non-empty window, was published. *)
Theorem successful_tick
        (E : Collaborators) (pose : PoseStamped.t) (speed : Twist.t)
        (c c' : PurePursuitController) (cmd : TwistStamped.t) :
  computeVelocityCommands E pose speed c = (Return cmd, c') ->
  last_cmd_ c' = cmd
  /\ TwistStamped.header cmd
     = Header.mk (now E) (Header.frame_id (PoseStamped.header pose))
  /\ Vector3.y (Twist.linear (TwistStamped.twist cmd)) = 0%float
  /\ Vector3.z (Twist.linear (TwistStamped.twist cmd)) = 0%float
  /\ Vector3.x (Twist.angular (TwistStamped.twist cmd)) = 0%float
  /\ Vector3.y (Twist.angular (TwistStamped.twist cmd)) = 0%float
  /\ exists window,
      Path.poses window <> []
      /\ global_pub_ c' = window :: global_pub_ c.
Proof.
  intros H.
  destruct (transformGlobalPlan E pose c) as [[window|e] c1] eqn:Ht.
  - rewrite (tick_after_window E pose speed c c1 window Ht) in H.
    destruct (flowed_off_end E); [discriminate|].
    cbv zeta in H. inversion H; subst cmd c'. clear H.
    repeat (split; [reflexivity|]).
    exists window. cbn [global_pub_ set_last_cmd].
    rewrite transformGlobalPlan_run in Ht. cbv zeta in Ht.
    destruct (is_empty (Path.poses (global_plan_ c))); [discriminate|].
    destruct (negb _); [discriminate|].
    match type of Ht with context [is_empty ?l] => destruct (is_empty l) eqn:Hw end;
      [discriminate|].
    inversion Ht; subst. cbn [global_pub_ publish set_global_plan Path.poses] in *.
    split; [|reflexivity]. intros Hnil. rewrite Hnil in Hw. discriminate.
  - rewrite (tick_after_failed_window E pose speed c c1 e Ht) in H. discriminate.
Qed.

Lemma successful_tick_witness :
  let E := Demo.world 0.0 0.0 false in
  let pose := Demo.at_xy "map" 100000000 0.0 0.0 in
  let c := Demo.configured (Demo.straight "map") in
  let r := computeVelocityCommands E pose Twist.default c in
  exists cmd,
    r = (Return cmd, snd r)
    /\ last_cmd_ (snd r) = cmd
    /\ TwistStamped.header cmd = Header.mk 2000000000 "map"
    /\ List.length (global_pub_ (snd r)) = 1.
Proof.
  cbv zeta.
  assert (Hr : exists cmd,
             computeVelocityCommands (Demo.world 0.0 0.0 false)
               (Demo.at_xy "map" 100000000 0.0 0.0) Twist.default
               (Demo.configured (Demo.straight "map"))
             = (Return cmd,
                snd (computeVelocityCommands (Demo.world 0.0 0.0 false)
                       (Demo.at_xy "map" 100000000 0.0 0.0) Twist.default
                       (Demo.configured (Demo.straight "map")))))
    by (eexists; vm_compute; reflexivity).
  destruct Hr as [cmd Hr]. exists cmd. split; [exact Hr|].
  destruct (successful_tick _ _ _ _ _ _ Hr) as (Hlast & Hhead & _ & _ & _ & _ & w & _ & Hpub).
  split; [exact Hlast|]. split; [exact Hhead|]. now rewrite Hpub.
Defined.

(** One call: configuration kept; last command kept or replaced by a
    clamped one. *)
Lemma call_keeps_limits (k : Call) (c : PurePursuitController) :
  (0 <=? desired_linear_vel_ c)%float = true ->
  (0 <=? max_angular_vel_ c)%float = true ->
  within_limits c (last_cmd_ c) ->
  desired_linear_vel_ (after_call c k) = desired_linear_vel_ c
  /\ max_angular_vel_ (after_call c k) = max_angular_vel_ c
  /\ within_limits c (last_cmd_ (after_call c k)).
Proof.
  intros Hd Hm Hin. destruct k as [path|E pose speed]; simpl.
  - auto.
  - destruct (transformGlobalPlan E pose c) as [[window|e] c1] eqn:Ht;
      destruct (transformGlobalPlan_keeps E pose c c1 _ Ht) as (Hlast & Hdes & Hmax).
    + rewrite (tick_after_window E pose speed c c1 window Ht).
      destruct (flowed_off_end E); cbn [snd].
      * rewrite Hlast. auto.
      * cbn. split; [exact Hdes|]. split; [exact Hmax|].
        unfold within_limits, cmd_vel. cbn. rewrite Hdes, Hmax. split.
        -- now apply Binary64.clamp_range.
        -- apply Binary64.clamp_range. now apply Binary64.opp_leb_self.
    + rewrite (tick_after_failed_window E pose speed c c1 e Ht). cbn [snd].
      rewrite Hlast. auto.
Qed.

(** X9.  With [desired_linear_vel_] and [max_angular_vel_] not negative
    and a stored last command within the limits (as the initial, all-zero
    one is), every series of [setPlan] and [computeVelocityCommands] calls
    leaves the two limits as they were and a stored last command within
    them: each of its two velocities lies in its interval or is a NaN. *)
Theorem last_command_stays_within_limits (ks : list Call) (c : PurePursuitController) :
  (0 <=? desired_linear_vel_ c)%float = true ->
  (0 <=? max_angular_vel_ c)%float = true ->
  within_limits c (last_cmd_ c) ->
  desired_linear_vel_ (after_calls ks c) = desired_linear_vel_ c
  /\ max_angular_vel_ (after_calls ks c) = max_angular_vel_ c
  /\ within_limits c (last_cmd_ (after_calls ks c)).
Proof.
  unfold after_calls. revert c.
  induction ks as [|k ks IH]; intros c Hd Hm Hin; simpl; [auto|].
  destruct (call_keeps_limits k c Hd Hm Hin) as (Hdes & Hmax & Hin').
  assert (Hw : within_limits (after_call c k) (last_cmd_ (after_call c k))).
  { unfold within_limits in *. now rewrite Hdes, Hmax. }
  destruct (IH (after_call c k)) as (Hd2 & Hm2 & Hin2);
    [now rewrite Hdes | now rewrite Hmax | exact Hw |].
  rewrite Hd2, Hm2.
  split; [exact Hdes|]. split; [exact Hmax|].
  unfold within_limits in *. now rewrite Hdes, Hmax in Hin2.
Qed.

Lemma last_command_stays_within_limits_witness :
  let c := Demo.configured [] in
  let ks := [Call_computeVelocityCommands (Demo.world 0.0 0.0 false)
               (Demo.at_xy "map" 100000000 0.0 0.0) Twist.default;
             Call_setPlan (Path.mk (Header.mk 0 "map") (Demo.straight "map"));
             Call_computeVelocityCommands (Demo.world 0.0 0.0 false)
               (Demo.at_xy "map" 100000000 0.0 0.0) Twist.default;
             Call_computeVelocityCommands (Demo.world 0.9 0.0 false)
               (Demo.at_xy "map" 2100000000 0.9 0.0) Twist.default] in
  Demo.linear_x (last_cmd_ (after_calls ks c)) = 0.2%float
  /\ desired_linear_vel_ (after_calls ks c) = desired_linear_vel_ c
  /\ max_angular_vel_ (after_calls ks c) = max_angular_vel_ c
  /\ within_limits c (last_cmd_ (after_calls ks c)).
Proof.
  cbv zeta. split; [vm_compute; reflexivity|].
  apply last_command_stays_within_limits.
  - reflexivity.
  - reflexivity.
  - split; right; split; reflexivity.
Defined.

(** ** When a tick returns *)

Lemma is_empty_length {A} (l : list A) : is_empty l = (List.length l =? 0)%nat.
Proof. now destruct l. Qed.

(** The window is empty exactly when the closest pose is out of reach. *)
Lemma window_is_empty (E : Collaborators) (plan_frame : string)
      (robot_pose d : PoseStamped.t) (plan : list PoseStamped.t) :
  plan <> [] ->
  is_empty (transform_range E plan_frame (Header.stamp (PoseStamped.header robot_pose))
              (range (transformation_begin E robot_pose plan)
                     (transformation_end E robot_pose plan) plan)
              d)
  = (max_transform_dist E
     <? euclidean_distance E robot_pose
          (nth (transformation_begin E robot_pose plan) plan PoseStamped.default))%float.
Proof.
  intros Hne.
  destruct (transformation_end_le E robot_pose plan Hne) as (Hb & Hbe & He).
  rewrite is_empty_length, transform_range_length, range_length by exact He.
  pose proof (find_if_skipn_zero
                (fun g => (max_transform_dist E <? euclidean_distance E robot_pose g)%float)
                PoseStamped.default _ plan Hb) as Hz.
  cbv beta in Hz. unfold transformation_end in *.
  set (b := transformation_begin E robot_pose plan) in *.
  set (n := find_if _ (skipn b plan)) in *.
  destruct (max_transform_dist E <? euclidean_distance E robot_pose (nth b plan PoseStamped.default))%float.
  - destruct Hz as [_ Hz]. rewrite Hz by reflexivity. now rewrite Nat.add_0_r, Nat.sub_diag.
  - destruct n as [|n]; [destruct Hz as [Hz _]; discriminate Hz; reflexivity|].
    apply Nat.eqb_neq. lia.
Qed.

(** X11.  When a tick returns.  [computeVelocityCommands] returns a
    command exactly when the held path has a pose, the robot pose can be
    expressed in the plan's frame, the plan pose closest to the robot is not
    farther from it than [max_transform_dist], and the collision check reads
    false; in every other case it throws.  The measured speed and the
    controller's parameters play no part in it. *)
Theorem tick_returns_exactly_when
        (E : Collaborators) (pose : PoseStamped.t) (speed : Twist.t)
        (c : PurePursuitController) :
  let plan := Path.poses (global_plan_ c) in
  let plan_frame := Header.frame_id (Path.header (global_plan_ c)) in
  let tp := transformPose E plan_frame pose PoseStamped.default in
  let closest :=
    nth (transformation_begin E (snd tp) plan) plan PoseStamped.default in
  (exists cmd, fst (computeVelocityCommands E pose speed c) = Return cmd)
  <-> (plan <> []
       /\ fst tp = true
       /\ (max_transform_dist E <? euclidean_distance E (snd tp) closest)%float = false
       /\ flowed_off_end E = false).
Proof.
  cbv zeta.
  destruct (transformGlobalPlan E pose c) as [r c1] eqn:Ht.
  pose proof Ht as Hrun. rewrite transformGlobalPlan_run in Hrun. cbv zeta in Hrun.
  destruct (Path.poses (global_plan_ c)) as [|g plan] eqn:Hplan.
  - cbn [is_empty] in Hrun. inversion Hrun; subst.
    rewrite (tick_after_failed_window _ _ _ _ _ _ Ht). cbn [fst].
    split; [intros [cmd H]; discriminate | intros [H _]; congruence].
  - cbn [is_empty] in Hrun.
    destruct (fst (transformPose E _ pose PoseStamped.default)) eqn:Hok;
      cbn [negb] in Hrun.
    + cbn [Path.poses] in Hrun. rewrite window_is_empty in Hrun by discriminate.
      match type of Hrun with
      | context [(?a <? ?b)%float] => destruct (a <? b)%float eqn:Hfar
      end.
      * inversion Hrun; subst.
        rewrite (tick_after_failed_window _ _ _ _ _ _ Ht). cbn [fst].
        split; [intros [cmd H]; discriminate | intros (_ & _ & H & _); discriminate].
      * inversion Hrun as [[Hr Hc1]]. rewrite <- Hr in Ht.
        rewrite (tick_after_window _ _ _ _ _ _ Ht).
        destruct (flowed_off_end E); cbv zeta; cbn [fst].
        -- split; [intros [cmd H]; discriminate | intros (_ & _ & _ & H); discriminate].
        -- split; [intros _; repeat split; discriminate | intros _; eexists; reflexivity].
    + inversion Hrun; subst.
      rewrite (tick_after_failed_window _ _ _ _ _ _ Ht). cbn [fst].
      split; [intros [cmd H]; discriminate | intros (_ & H & _); discriminate].
Qed.

(** ** The limiter at its edges *)

(** X10.  At a time step of zero (either sign) the limiter holds the last
    velocities: with finite last velocities and finite [max_accel_] and
    [max_decel_], a requested velocity that is a number comes out equal to
    the last one on its axis (for the linear axis the request is the one
    after the end-of-path scaling).  The division by [dt] gives an infinite
    rate, or a NaN for an unchanged request, and both branches then add or
    subtract a limit times zero. *)
Theorem zero_time_step_holds_last_velocity
        (E : Collaborators) (c : PurePursuitController)
        (linear_vel angular_vel dist_error lookahead_dist dt : double) :
  (dt =? 0)%float = true ->
  is_finite (Vector3.x (Twist.linear (TwistStamped.twist (last_cmd_ c)))) = true ->
  is_finite (Vector3.z (Twist.angular (TwistStamped.twist (last_cmd_ c)))) = true ->
  is_finite (max_accel_ c) = true ->
  is_finite (max_decel_ c) = true ->
  let scaled :=
    if (2.0 * getResolution E <? dist_error)%float
    then (linear_vel * (dist_error / lookahead_dist))%float
    else linear_vel in
  let out := applyKinematicConstraints E c linear_vel angular_vel
               dist_error lookahead_dist dt in
  (is_nan scaled = false ->
   (fst out =? Vector3.x (Twist.linear (TwistStamped.twist (last_cmd_ c))))%float = true)
  /\ (is_nan angular_vel = false ->
      (snd out =? Vector3.z (Twist.angular (TwistStamped.twist (last_cmd_ c))))%float
      = true).
Proof.
  intros Hdt Hx Hz Ha Hd. cbv zeta. unfold applyKinematicConstraints. cbn [fst snd].
  split; intros Hv.
  - now apply Binary64.limited_axis_at_zero_dt.
  - now apply Binary64.limited_axis_at_zero_dt.
Qed.

Lemma zero_time_step_holds_last_velocity_witness :
  let E := Demo.world 0.0 0.0 false in
  let c := set_last_cmd
             (TwistStamped.mk (Header.mk 100000000 "map")
                (Twist.mk (Vector3.mk 0.2 0.0 0.0) (Vector3.mk 0.0 0.0 (-0.1)))%float)
             (Demo.configured (Demo.straight "map")) in
  let out := applyKinematicConstraints E c 0.5 0.3 0.0 0.4 0.0 in
  out = (0.2, -0.1)%float
  /\ (fst out =? 0.2)%float = true
  /\ (snd out =? -0.1)%float = true.
Proof.
  cbv zeta. split; [vm_compute; reflexivity|].
  destruct (zero_time_step_holds_last_velocity
           (Demo.world 0.0 0.0 false)
           (set_last_cmd
              (TwistStamped.mk (Header.mk 100000000 "map")
                 (Twist.mk (Vector3.mk 0.2 0.0 0.0) (Vector3.mk 0.0 0.0 (-0.1)))%float)
              (Demo.configured (Demo.straight "map")))
           0.5 0.3 0.0 0.4 0.0 eq_refl eq_refl eq_refl eq_refl eq_refl)%float
    as [Hlin Hang].
  split; [apply Hlin | apply Hang]; reflexivity.
Defined.

(** X12.  At steady state the limiter is idle: with [max_accel_] and
    [max_decel_] not negative, a requested velocity equal to the last one
    on its axis is returned as it is, for every time step (zero, negative
    and NaN included) and also when the two are infinite. *)
Theorem limiter_is_idle_at_steady_state
        (E : Collaborators) (c : PurePursuitController)
        (linear_vel angular_vel dist_error lookahead_dist dt : double) :
  (0 <=? max_accel_ c)%float = true ->
  (0 <=? max_decel_ c)%float = true ->
  let last_linear := Vector3.x (Twist.linear (TwistStamped.twist (last_cmd_ c))) in
  let last_angular := Vector3.z (Twist.angular (TwistStamped.twist (last_cmd_ c))) in
  let scaled :=
    if (2.0 * getResolution E <? dist_error)%float
    then (linear_vel * (dist_error / lookahead_dist))%float
    else linear_vel in
  let out := applyKinematicConstraints E c linear_vel angular_vel
               dist_error lookahead_dist dt in
  ((scaled =? last_linear)%float = true -> fst out = scaled)
  /\ ((angular_vel =? last_angular)%float = true -> snd out = angular_vel).
Proof.
  intros Ha Hd. cbv zeta. unfold applyKinematicConstraints. cbn [fst snd].
  split; intros Hv; now apply Binary64.limited_axis_steady.
Qed.

Lemma limiter_is_idle_at_steady_state_witness :
  let E := Demo.world 0.0 0.0 false in
  let c := set_last_cmd
             (TwistStamped.mk (Header.mk 100000000 "map")
                (Twist.mk (Vector3.mk 0.5 0.0 0.0) (Vector3.mk 0.0 0.0 0.25))%float)
             (Demo.configured (Demo.straight "map")) in
  applyKinematicConstraints E c 0.5 0.25 0.0 0.4 0.1 = (0.5, 0.25)%float
  /\ applyKinematicConstraints E c 0.5 0.25 0.0 0.4 (-3.0) = (0.5, 0.25)%float
  /\ fst (applyKinematicConstraints E c 0.5 0.25 0.0 0.4 nan) = 0.5%float
  /\ snd (applyKinematicConstraints E c 0.5 0.25 0.0 0.4 nan) = 0.25%float.
Proof.
  cbv zeta. split; [vm_compute; reflexivity|]. split; [vm_compute; reflexivity|].
  destruct (limiter_is_idle_at_steady_state
              (Demo.world 0.0 0.0 false)
              (set_last_cmd
                 (TwistStamped.mk (Header.mk 100000000 "map")
                    (Twist.mk (Vector3.mk 0.5 0.0 0.0) (Vector3.mk 0.0 0.0 0.25))%float)
                 (Demo.configured (Demo.straight "map")))
              0.5 0.25 0.0 0.4 nan eq_refl eq_refl)%float as [Hlin Hang].
  split; [apply Hlin | apply Hang]; reflexivity.
Defined.
